(** * promptandconquer: client-side state synchronisation and input pipeline

    A shallow embedding of [client/src/App.tsx] (the [App] component) and of
    the connected variant of [GroundGrid] (its [handleClick]), together with
    the properties the specification states about them.

    - JavaScript numbers that hold angles are IEEE-754 binary64 values and are
      modelled by Rocq's primitive floats, which are binary64 as well.
    - The [Map] of players is modelled with its insertion order, as an
      association list; the specification's reference map is a [gmap].
    - React state, refs, the module-level connection handle and the browser
      facilities the component talks to (console, animation frames, remote
      reducer calls) are fields of one explicit [World] record that every
      handler transforms. *)

From Stdlib Require Import ZArith Bool List Lia.
From Stdlib Require Import Floats.
From stdpp Require Import base option list strings gmap fin_maps.
From Stdlib Require DecimalString DecimalNat Uint63.

Local Open Scope string_scope.
Local Open Scope Z_scope.

(** ** Input snapshot *)

(** [InputState] of the generated bindings, as [currentInputRef] initialises
    it: eight boolean action flags and the [sequence] counter.  The counter
    is a JavaScript number that only ever holds a non-negative integer; it is
    kept as an integer here and the one operation applied to it, [+= 1], is
    [js_increment] below. *)
Record InputState := mkInputState {
  forward : bool;
  backward : bool;
  left : bool;
  right : bool;
  sprint : bool;
  jump : bool;
  attack : bool;
  castSpell : bool;
  sequence : Z
}.

(** The initial value of [currentInputRef]. *)
Definition initialInput : InputState :=
  mkInputState false false false false false false false false 0.

Definition set_sequence (n : Z) (i : InputState) : InputState :=
  mkInputState (forward i) (backward i) (left i) (right i)
               (sprint i) (jump i) (attack i) (castSpell i) n.

(** Largest integer [n] for which the binary64 sum [n + 1] is exact. *)
Definition MAX_SAFE_STEP : Z := 2 ^ 53.

(** [x += 1] on a binary64 number holding the integer [x].  The sum is
    exact while its magnitude is at most [2^53].  Beyond that, up to
    [2^54], the numbers are the even integers and [x + 1] lies halfway
    between [x] and [x + 2]: it rounds to the one with the even
    significand, which is the multiple of 4.  From [2^54] on the sum rounds
    back to [x].  Counting up from [0] reaches [2^53] and stays there. *)
Definition js_increment (x : Z) : Z :=
  if Z.abs (x + 1) <=? MAX_SAFE_STEP then x + 1
  else if Z.abs x <? 2 * MAX_SAFE_STEP then (if x mod 4 =? 0 then x else x + 2)
  else x.

(** ** Animation classifier *)

Module Classifier.

(** The [direction] variable of [determineAnimation]: initialised to
    ['forward'] and overwritten by the first branch of the chain that
    matches. *)
Definition direction_of (forward backward left right : bool) : string :=
  if forward && negb backward then "forward"
  else if backward && negb forward then "back"
  else if left && negb right then "left"
  else if right && negb left then "right"
  else if forward && left then "left"
  else if forward && right then "right"
  else if backward && left then "left"
  else if backward && right then "right"
  else "forward".

Definition determineAnimation (input : InputState) : string :=
  if attack input then "attack1"
  else if castSpell input then "cast"
  else if jump input then "jump"
  else
    let isMoving := forward input || backward input || left input || right input in
    if negb isMoving then "idle"
    else
      let direction :=
        direction_of (forward input) (backward input) (left input) (right input) in
      let moveType := if sprint input then "run" else "walk" in
      moveType +:+ "-" +:+ direction.

(** The twelve tags the classifier can produce. *)
Definition all_tags : list string :=
  [ "attack1"; "cast"; "jump"; "idle";
    "walk-forward"; "walk-back"; "walk-left"; "walk-right";
    "run-forward"; "run-back"; "run-left"; "run-right" ].

(** All [2^8] flag combinations, at a given sequence number. *)
Definition all_snapshots (seq : Z) : list InputState :=
  f ← [true; false]; b ← [true; false]; l ← [true; false]; r ← [true; false];
  s ← [true; false]; j ← [true; false]; a ← [true; false]; c ← [true; false];
  [mkInputState f b l r s j a c seq].

(** Two snapshots carry the same eight action flags. *)
Definition same_flags (a b : InputState) : Prop :=
  forward a = forward b /\ backward a = backward b /\
  left a = left b /\ right a = right b /\
  sprint a = sprint b /\ jump a = jump b /\
  attack a = attack b /\ castSpell a = castSpell b.

End Classifier.

(** ** JavaScript numbers and [Math] *)

Module Math.

(** [Math.PI], the binary64 value nearest to pi (3.141592653589793). *)
Definition PI : float := 0x1.921fb54442d18p+1%float.

(** [Math.max] and [Math.min] on two numbers: [NaN] if either argument is
    [NaN]; otherwise the larger (smaller) one, where [+0] counts as larger
    than [-0]. *)
Definition max (a b : float) : float :=
  if is_nan a || is_nan b then nan
  else if (a <? b)%float then b
  else if (b <? a)%float then a
  else if get_sign a then b else a.

Definition min (a b : float) : float :=
  if is_nan a || is_nan b then nan
  else if (a <? b)%float then a
  else if (b <? a)%float then b
  else if get_sign a then a else b.

End Math.

(** A binary64 value, in the representation of its specification, that is a
    zero or a finite non-zero number (neither an infinity nor [NaN]). *)
Definition SF_is_bounded (a : spec_float) : bool :=
  match a with
  | S754_zero _ | S754_finite _ _ _ => true
  | _ => false
  end.

Module THREE.

(** [THREE.Euler]: three angles in radians and the rotation order. *)
Record Euler := mkEuler {
  x : float;
  y : float;
  z : float;
  order : string
}.

End THREE.

(** ** The player [Map] *)

(** A JavaScript [Map<string, V>]: entries in insertion order, one per key. *)
Module JsMap.
Section ops.
Context {V : Type}.

Definition empty : list (string * V) := [].

(** [m.set(k, v)]: an existing entry keeps its place and takes the new
    value; a new key is appended. *)
Fixpoint set (k : string) (v : V) (m : list (string * V)) : list (string * V) :=
  match m with
  | [] => [(k, v)]
  | (k', v') :: rest =>
      if String.eqb k k' then (k, v) :: rest else (k', v') :: set k v rest
  end.

(** [m.delete(k)]: the entry of [k] is removed, if there is one. *)
Fixpoint delete (k : string) (m : list (string * V)) : list (string * V) :=
  match m with
  | [] => []
  | (k', v') :: rest =>
      if String.eqb k k' then delete k rest else (k', v') :: delete k rest
  end.

(** [m.get(k)]. *)
Fixpoint get (k : string) (m : list (string * V)) : option V :=
  match m with
  | [] => None
  | (k', v') :: rest => if String.eqb k k' then Some v' else get k rest
  end.

(** [m.size]. *)
Definition size (m : list (string * V)) : Z := Z.of_nat (length m).
End ops.
End JsMap.

(** ** Rows of the synchronised tables *)

(** [Identity] of the SDK; the client only ever reads its canonical hex
    string. *)
Record Identity := mkIdentity { toHexString : string }.

(** [PlayerData] is declared in the generated bindings; [App.tsx] reads its
    [identity] and [username] columns and otherwise passes rows around
    unchanged, so the row type is a parameter with these two accessors. *)
Module Player.
Class Row (PlayerData : Type) := {
  identity : PlayerData -> Identity;
  username : PlayerData -> string
}.
End Player.

(** [GridSquareData]: the cell label and its selection flag. *)
Module GridSquare.
Record Data := mkData { key : string; selected : bool }.
End GridSquare.

(** Remote procedure calls issued through [conn.reducers]. *)
Inductive ReducerCall :=
| registerPlayer (username characterClass : string)
| toggleGridSquare (key : string).

(** Lines written to the console, with their arguments. *)
Inductive ConsoleEntry :=
| console_log (args : list string)
| console_error (args : list string).

(** What [document.pointerLockElement] can designate. *)
Inductive Element :=
| document_body
| other_element (id : string).

(** [!v] for a reference that is either an object or [null]. *)
Definition isNull {A : Type} (v : option A) : bool :=
  match v with
  | None => true
  | Some _ => false
  end.

(** [document.pointerLockElement === document.body]. *)
Definition isDocumentBody (e : option Element) : bool :=
  match e with
  | Some document_body => true
  | _ => false
  end.

(** The DOM events the input handlers receive. *)
Record MouseEvent := mkMouseEvent {
  button : Z;
  movementX : float;
  movementY : float
}.

(** The action flags of [InputState], that is [keyof Omit<InputState,
    'sequence'>]. *)
Module Action.
Inductive t := forward | backward | left | right | sprint | jump | attack | castSpell.

Definition eqb (a b : t) : bool :=
  match a, b with
  | forward, forward | backward, backward | left, left | right, right
  | sprint, sprint | jump, jump | attack, attack | castSpell, castSpell => true
  | _, _ => false
  end.
End Action.

(** [input[action]] and [input[action] = value]. *)
Definition getFlag (action : Action.t) (input : InputState) : bool :=
  match action with
  | Action.forward => forward input
  | Action.backward => backward input
  | Action.left => left input
  | Action.right => right input
  | Action.sprint => sprint input
  | Action.jump => jump input
  | Action.attack => attack input
  | Action.castSpell => castSpell input
  end.

Definition setFlag (action : Action.t) (value : bool) (input : InputState) : InputState :=
  match action with
  | Action.forward =>
      mkInputState value (backward input) (left input) (right input)
        (sprint input) (jump input) (attack input) (castSpell input) (sequence input)
  | Action.backward =>
      mkInputState (forward input) value (left input) (right input)
        (sprint input) (jump input) (attack input) (castSpell input) (sequence input)
  | Action.left =>
      mkInputState (forward input) (backward input) value (right input)
        (sprint input) (jump input) (attack input) (castSpell input) (sequence input)
  | Action.right =>
      mkInputState (forward input) (backward input) (left input) value
        (sprint input) (jump input) (attack input) (castSpell input) (sequence input)
  | Action.sprint =>
      mkInputState (forward input) (backward input) (left input) (right input)
        value (jump input) (attack input) (castSpell input) (sequence input)
  | Action.jump =>
      mkInputState (forward input) (backward input) (left input) (right input)
        (sprint input) value (attack input) (castSpell input) (sequence input)
  | Action.attack =>
      mkInputState (forward input) (backward input) (left input) (right input)
        (sprint input) (jump input) value (castSpell input) (sequence input)
  | Action.castSpell =>
      mkInputState (forward input) (backward input) (left input) (right input)
        (sprint input) (jump input) (attack input) value (sequence input)
  end.

(** [keyMap[event.code]]: the seven entries of the table.  [event.code] is a
    key code of the keyboard-event code table; none of those names a
    property that a plain object inherits, so only the own entries are
    found. *)
Definition keyMap (code : string) : option Action.t :=
  if String.eqb code "KeyW" then Some Action.forward
  else if String.eqb code "KeyS" then Some Action.backward
  else if String.eqb code "KeyA" then Some Action.left
  else if String.eqb code "KeyD" then Some Action.right
  else if String.eqb code "ShiftLeft" then Some Action.sprint
  else if String.eqb code "Space" then Some Action.jump
  else if String.eqb code "KeyC" then Some Action.castSpell
  else None.

(** The fields of a [KeyboardEvent] the handlers read. *)
Module Keyboard.
Record Event := mkEvent { code : string; repeat : bool }.
End Keyboard.

(** ** The state of the client *)

Section Client.
Context {PlayerData : Type} `{!Player.Row PlayerData}.

(** The connection object, seen through what the component reads from it:
    the rows the client cache currently holds, in the order [iter()] yields
    them, and what a call of [reducers.toggleGridSquare(key)] throws, if it
    throws (the text of the error; the one call made inside a [try]). *)
Record DbConnection := mkDbConnection {
  db_player : list PlayerData;
  db_gridSquare : list GridSquare.Data;
  toggleGridSquare_throws : string -> option string
}.

(** The [useState] cells of [App] that the handlers below write. *)
Record AppState := mkAppState {
  connected : bool;
  identity : option Identity;
  statusMessage : string;
  players : list (string * PlayerData);
  localPlayer : option PlayerData;
  showJoinDialog : bool;
  isPointerLocked : bool
}.

(** The [useRef] cells of [App]. *)
Record Refs := mkRefs {
  currentInputRef : InputState;
  lastSentInputState : option InputState;
  animationFrameIdRef : option positive;
  playerRotationRef : THREE.Euler
}.

(** What the component reaches in the browser: the pointer-lock owner, the
    console, the reducer calls sent so far, and the animation-frame
    callbacks that are scheduled (handles are positive integers). *)
Record Browser := mkBrowser {
  pointerLockElement : option Element;
  console : list ConsoleEntry;
  remoteCalls : list ReducerCall;
  rafPending : list positive;
  rafNext : positive
}.

(** [conn] is the module-level variable of [App.tsx], [window_conn] the
    global [window.conn]; [selectedSquares] is the state of [GroundGrid]. *)
Record World := mkWorld {
  conn : option DbConnection;
  window_conn : option DbConnection;
  app : AppState;
  refs : Refs;
  selectedSquares : gset string;
  browser : Browser
}.

(** *** Field updates *)

Definition set_conn (c : option DbConnection) (w : World) : World :=
  mkWorld c (window_conn w) (app w) (refs w) (selectedSquares w) (browser w).
Definition set_window_conn (c : option DbConnection) (w : World) : World :=
  mkWorld (conn w) c (app w) (refs w) (selectedSquares w) (browser w).
Definition with_app (f : AppState -> AppState) (w : World) : World :=
  mkWorld (conn w) (window_conn w) (f (app w)) (refs w) (selectedSquares w) (browser w).
Definition with_refs (f : Refs -> Refs) (w : World) : World :=
  mkWorld (conn w) (window_conn w) (app w) (f (refs w)) (selectedSquares w) (browser w).
Definition with_browser (f : Browser -> Browser) (w : World) : World :=
  mkWorld (conn w) (window_conn w) (app w) (refs w) (selectedSquares w) (f (browser w)).

(** The [useState] setters.  A functional update [setPlayers(prev => ...)]
    is applied to the value the cell holds when the update is processed;
    updates are processed in the order they were queued, which is the order
    in which the handlers run here. *)
Definition setConnected (b : bool) : World -> World :=
  with_app (fun a => mkAppState b (identity a) (statusMessage a) (players a)
                       (localPlayer a) (showJoinDialog a) (isPointerLocked a)).
Definition setIdentity (i : option Identity) : World -> World :=
  with_app (fun a => mkAppState (connected a) i (statusMessage a) (players a)
                       (localPlayer a) (showJoinDialog a) (isPointerLocked a)).
Definition setStatusMessage (s : string) : World -> World :=
  with_app (fun a => mkAppState (connected a) (identity a) s (players a)
                       (localPlayer a) (showJoinDialog a) (isPointerLocked a)).
Definition setPlayers (f : list (string * PlayerData) -> list (string * PlayerData))
  : World -> World :=
  with_app (fun a => mkAppState (connected a) (identity a) (statusMessage a)
                       (f (players a)) (localPlayer a) (showJoinDialog a)
                       (isPointerLocked a)).
Definition setLocalPlayer (p : option PlayerData) : World -> World :=
  with_app (fun a => mkAppState (connected a) (identity a) (statusMessage a)
                       (players a) p (showJoinDialog a) (isPointerLocked a)).
Definition setShowJoinDialog (b : bool) : World -> World :=
  with_app (fun a => mkAppState (connected a) (identity a) (statusMessage a)
                       (players a) (localPlayer a) b (isPointerLocked a)).
Definition setIsPointerLocked (b : bool) : World -> World :=
  with_app (fun a => mkAppState (connected a) (identity a) (statusMessage a)
                       (players a) (localPlayer a) (showJoinDialog a) b).

Definition set_currentInputRef (i : InputState) : World -> World :=
  with_refs (fun r => mkRefs i (lastSentInputState r) (animationFrameIdRef r)
                        (playerRotationRef r)).
Definition set_animationFrameIdRef (h : option positive) : World -> World :=
  with_refs (fun r => mkRefs (currentInputRef r) (lastSentInputState r) h
                        (playerRotationRef r)).
Definition set_playerRotationRef (e : THREE.Euler) : World -> World :=
  with_refs (fun r => mkRefs (currentInputRef r) (lastSentInputState r)
                        (animationFrameIdRef r) e).

(** *** Browser facilities *)

Definition log (args : list string) : World -> World :=
  with_browser (fun b => mkBrowser (pointerLockElement b)
                           (console b ++ [console_log args])
                           (remoteCalls b) (rafPending b) (rafNext b)).
Definition error (args : list string) : World -> World :=
  with_browser (fun b => mkBrowser (pointerLockElement b)
                           (console b ++ [console_error args])
                           (remoteCalls b) (rafPending b) (rafNext b)).

(** A call through [conn.reducers]: the request leaves the client. *)
Definition callReducer (c : ReducerCall) : World -> World :=
  with_browser (fun b => mkBrowser (pointerLockElement b) (console b)
                           (remoteCalls b ++ [c]) (rafPending b) (rafNext b)).

(** [requestAnimationFrame(gameLoop)]: the callback is queued under a fresh
    handle, which is returned. *)
Definition requestAnimationFrame (w : World) : positive * World :=
  let h := rafNext (browser w) in
  (h, with_browser (fun b => mkBrowser (pointerLockElement b) (console b)
                               (remoteCalls b) (rafPending b ++ [h])
                               (Pos.succ (rafNext b))) w).

(** [cancelAnimationFrame(h)]: the callback queued under [h], if any, is
    dropped. *)
Definition cancelAnimationFrame (h : positive) : World -> World :=
  with_browser (fun b => mkBrowser (pointerLockElement b) (console b)
                           (remoteCalls b)
                           (List.filter (fun h' => negb (Pos.eqb h h')) (rafPending b))
                           (rafNext b)).

(** [player.identity.toHexString()], the key of the player mirror. *)
Definition playerKey (p : PlayerData) : string := toHexString (Player.identity p).

(** [identity && player.identity.toHexString() === identity.toHexString()],
    where [identity] is the value the callback closed over. *)
Definition isLocal (identity : option Identity) (p : PlayerData) : bool :=
  match identity with
  | Some id => String.eqb (playerKey p) (toHexString id)
  | None => false
  end.

(** ** Table mirror: the callbacks of [registerTableCallbacks] *)

(** Each callback is a closure over the [identity] of the render that
    created it; that value is the first argument. *)
Definition onInsert (identity : option Identity) (player : PlayerData) (w : World) : World :=
  let w := log ["Player inserted (callback):"; playerKey player] w in
  let w := setPlayers (fun prev => JsMap.set (playerKey player) player prev) w in
  if isLocal identity player then
    let w := setLocalPlayer (Some player) w in
    setStatusMessage ("Registered as " +:+ Player.username player) w
  else w.

Definition onUpdate (identity : option Identity) (_oldPlayer newPlayer : PlayerData)
  (w : World) : World :=
  let w := setPlayers (fun prev =>
                         let newMap := prev in
                         JsMap.set (playerKey newPlayer) newPlayer newMap) w in
  if isLocal identity newPlayer then setLocalPlayer (Some newPlayer) w else w.

Definition onDelete (identity : option Identity) (player : PlayerData) (w : World) : World :=
  let w := log ["Player deleted (callback):"; playerKey player] w in
  let w := setPlayers (fun prev =>
                         let newMap := prev in
                         JsMap.delete (playerKey player) newMap) w in
  if isLocal identity player then
    let w := setLocalPlayer None w in
    setStatusMessage "Local player deleted!" w
  else w.

(** The change notifications of the [player] table. *)
Inductive TableEvent :=
| Insert (player : PlayerData)
| Update (oldPlayer newPlayer : PlayerData)
| Delete (player : PlayerData).

Definition deliver (identity : option Identity) (w : World) (ev : TableEvent) : World :=
  match ev with
  | Insert p => onInsert identity p w
  | Update old new => onUpdate identity old new w
  | Delete p => onDelete identity p w
  end.

(** The notifications of a sequence, delivered in order. *)
Definition replay (identity : option Identity) (evs : list TableEvent) (w : World) : World :=
  fold_left (deliver identity) evs w.

(** The loop body of [onSubscriptionApplied]: the row enters
    [currentPlayers]; a row of the local identity also becomes the local
    player. *)
Definition loadRow (identity : option Identity)
  (acc : list (string * PlayerData) * World) (player : PlayerData)
  : list (string * PlayerData) * World :=
  let '(currentPlayers, w) := acc in
  (JsMap.set (playerKey player) player currentPlayers,
   if isLocal identity player then setLocalPlayer (Some player) w else w).

(** [onSubscriptionApplied]: the updater given to [setPlayers] reads the
    module-level [conn] and the current mirror. *)
Definition onSubscriptionApplied (identity : option Identity) (w : World) : World :=
  let w := log ["Subscription applied successfully."] w in
  if JsMap.size (players (app w)) =? 0 then
    match conn w with
    | Some c =>
        let '(currentPlayers, w) :=
          fold_left (loadRow identity) (db_player c) (JsMap.empty, w) in
        setPlayers (fun _ => currentPlayers) w
    | None => w
    end
  else w.

(** The map the loop of [onSubscriptionApplied] builds from the cached rows:
    starting from [new Map()], one [set] per row, in iteration order. *)
Definition initialLoad (rows : list PlayerData) : list (string * PlayerData) :=
  fold_left (fun currentPlayers player =>
               JsMap.set (playerKey player) player currentPlayers)
            rows JsMap.empty.

(** ** Connection lifecycle *)

(** [onDisconnect(_ctx, reason)], with [reason] given by its message. *)
Definition onDisconnect (reason : option string) (w : World) : World :=
  let reasonStr := match reason with Some message => message | None => "No reason given" end in
  let w := log ["onDisconnect triggered:"; reasonStr] w in
  let w := setStatusMessage ("Disconnected: " +:+ reasonStr) w in
  let w := set_conn None w in
  let w := set_window_conn None w in
  let w := setIdentity None w in
  let w := setConnected false w in
  let w := setPlayers (fun _ => JsMap.empty) w in
  setLocalPlayer None w.

(** [handleJoinGame(username, characterClass)]. *)
Definition handleJoinGame (username characterClass : string) (w : World) : World :=
  match conn w with
  | None => error ["Cannot join game, not connected."] w
  | Some _ =>
      let w := log ["Registering as " +:+ username +:+ " (" +:+ characterClass +:+ ")..."] w in
      let w := callReducer (registerPlayer username characterClass) w in
      setShowJoinDialog false w
  end.

(** [handleClick(key)] of the connected [GroundGrid]: the reducer call sits
    in a [try]; when it throws, nothing is sent and the [catch] branch
    writes the error to the console. *)
Definition handleClick (key : string) (w : World) : World :=
  match window_conn w with
  | None => error ["Cannot toggle grid square - not connected to server"] w
  | Some c =>
      let w := log ["Toggling grid square:"; key] w in
      match toggleGridSquare_throws c key with
      | None => callReducer (toggleGridSquare key) w
      | Some thrown => error ["Error toggling grid square:"; thrown] w
      end
  end.

(** ** Input pipeline and frame loop *)

(** [sendInput(input)]: the body returns at once; the former dispatch code
    is commented out. *)
Definition sendInput (input : InputState) (w : World) : World := w.

(** One run of [gameLoop].  [connected] and [identity] are the values of
    the render whose effect created the closure; [conn] is read from the
    module-level variable. *)
Definition gameLoop (connected : bool) (identity : option Identity) (w : World) : World :=
  if negb connected || isNull (conn w) || isNull identity then
    match animationFrameIdRef (refs w) with
    | Some h => set_animationFrameIdRef None (cancelAnimationFrame h w)
    | None => w
    end
  else
    let cur := currentInputRef (refs w) in
    let w := set_currentInputRef (set_sequence (js_increment (sequence cur)) cur) w in
    let w := sendInput (currentInputRef (refs w)) w in
    let '(h, w) := requestAnimationFrame w in
    set_animationFrameIdRef (Some h) w.

(** The browser runs the oldest scheduled frame callback: it leaves the
    queue and [gameLoop] is called. *)
Definition animationFrame (connected : bool) (identity : option Identity) (w : World)
  : World :=
  match rafPending (browser w) with
  | [] => w
  | h :: rest =>
      gameLoop connected identity
        (with_browser (fun b => mkBrowser (pointerLockElement b) (console b)
                                  (remoteCalls b) rest (rafNext b)) w)
  end.

(** [n] consecutive runs of [gameLoop]. *)
Fixpoint ticks (n : nat) (connected : bool) (identity : option Identity) (w : World) : World :=
  match n with
  | O => w
  | S n' => ticks n' connected identity (gameLoop connected identity w)
  end.

(** The body and the cleanup of the game-loop effect. *)
Definition gameLoopEffect (connected : bool) (w : World) : World :=
  if connected && isNull (animationFrameIdRef (refs w)) then
    let w := log ["[CLIENT] Starting game loop."] w in
    let '(h, w) := requestAnimationFrame w in
    set_animationFrameIdRef (Some h) w
  else w.

Definition gameLoopCleanup (w : World) : World :=
  match animationFrameIdRef (refs w) with
  | Some h =>
      let w := log ["[CLIENT] Stopping game loop."] w in
      set_animationFrameIdRef None (cancelAnimationFrame h w)
  | None => w
  end.

(** [const sensitivity = 0.002], the binary64 value nearest to it. *)
Definition sensitivity : float := 0x1.0624dd2f1a9fcp-9%float.

(** The bounds of the vertical angle, [-Math.PI / 2.5] and [Math.PI / 2.5]. *)
Definition pitch_min : float := (- Math.PI / 2.5)%float.
Definition pitch_max : float := (Math.PI / 2.5)%float.

(** [handleMouseMove(event)]. *)
Definition handleMouseMove (event : MouseEvent) (w : World) : World :=
  if isDocumentBody (pointerLockElement (browser w)) then
    let r := playerRotationRef (refs w) in
    let y' := (THREE.y r - movementX event * sensitivity)%float in
    let x' := Math.max pitch_min
                (Math.min pitch_max (THREE.x r - movementY event * sensitivity)%float) in
    set_playerRotationRef (THREE.mkEuler x' y' (THREE.z r) (THREE.order r)) w
  else w.

(** [handlePointerLockChange]. *)
Definition handlePointerLockChange (w : World) : World :=
  let locked := isDocumentBody (pointerLockElement (browser w)) in
  let w := setIsPointerLocked locked w in
  log ["Pointer Lock Changed: "; if locked then "true" else "false"] w.

(** *** Keyboard and mouse buttons *)

(** [handleKeyDown(event)] and [handleKeyUp(event)]. *)
Definition handleKeyDown (event : Keyboard.Event) (w : World) : World :=
  if Keyboard.repeat event then w
  else
    match keyMap (Keyboard.code event) with
    | Some action =>
        if negb (getFlag action (currentInputRef (refs w))) then
          set_currentInputRef (setFlag action true (currentInputRef (refs w))) w
        else w
    | None => w
    end.

Definition handleKeyUp (event : Keyboard.Event) (w : World) : World :=
  match keyMap (Keyboard.code event) with
  | Some action =>
      if getFlag action (currentInputRef (refs w)) then
        set_currentInputRef (setFlag action false (currentInputRef (refs w))) w
      else w
  | None => w
  end.

(** [handleMouseDown(event)] and [handleMouseUp(event)]. *)
Definition handleMouseDown (event : MouseEvent) (w : World) : World :=
  if button event =? 0 then
    if negb (attack (currentInputRef (refs w))) then
      set_currentInputRef (setFlag Action.attack true (currentInputRef (refs w))) w
    else w
  else w.

Definition handleMouseUp (event : MouseEvent) (w : World) : World :=
  if button event =? 0 then
    if attack (currentInputRef (refs w)) then
      set_currentInputRef (setFlag Action.attack false (currentInputRef (refs w))) w
    else w
  else w.

(** [handlePlayerRotation(rotation)]: [Euler.copy] takes over the three
    angles and the order. *)
Definition handlePlayerRotation (rotation : THREE.Euler) (w : World) : World :=
  set_playerRotationRef
    (THREE.mkEuler (THREE.x rotation) (THREE.y rotation) (THREE.z rotation)
       (THREE.order rotation)) w.

(** The device events of the listeners [setupInputListeners] installs, and
    the handler each one reaches. *)
Inductive InputEvent :=
| keydown (event : Keyboard.Event)
| keyup (event : Keyboard.Event)
| mousedown (event : MouseEvent)
| mouseup (event : MouseEvent)
| mousemove (event : MouseEvent)
| pointerlockchange.

Definition handleInput (w : World) (ev : InputEvent) : World :=
  match ev with
  | keydown e => handleKeyDown e w
  | keyup e => handleKeyUp e w
  | mousedown e => handleMouseDown e w
  | mouseup e => handleMouseUp e w
  | mousemove e => handleMouseMove e w
  | pointerlockchange => handlePointerLockChange w
  end.

(** *** Connecting *)

(** [subscribeToTables], [registerTableCallbacks], [setupInputListeners] and
    [setupDelegatedListeners] register queries, callbacks and listeners with
    the SDK and the DOM, which hold them; of what [World] records they
    write their console lines, and the first two return at once when [conn]
    is null. *)
Definition subscribeToTables (w : World) : World :=
  match conn w with
  | None => w
  | Some _ => log ["Subscribing to tables..."] w
  end.

Definition registerTableCallbacks (w : World) : World :=
  match conn w with
  | None => w
  | Some _ =>
      let w := log ["Registering table callbacks..."] w in
      log ["Table callbacks registered."] w
  end.

Definition setupInputListeners (w : World) : World :=
  log ["Input listeners added."] w.

Definition setupDelegatedListeners (w : World) : World :=
  log ["Delegated listener added to body."] w.

(** [onConnect(connection, id, _token)]. *)
Definition onConnect (connection : DbConnection) (id : Identity) (_token : string)
  (w : World) : World :=
  let w := log ["Connected!"] w in
  let w := set_conn (Some connection) w in
  let w := set_window_conn (Some connection) w in
  let w := setIdentity (Some id) w in
  let w := setConnected true w in
  let w := setStatusMessage
             ("Connected as " +:+ String.substring 0%nat 8%nat (toHexString id) +:+ "...") w in
  let w := subscribeToTables w in
  let w := registerTableCallbacks w in
  let w := setupInputListeners w in
  let w := setupDelegatedListeners w in
  setShowJoinDialog true w.

(** *** The frame loop as the browser and React drive it *)

(** What can happen to the frame loop: the effect runs with the rendered
    [connected], its cleanup runs, or the browser fires a frame that calls
    the [gameLoop] closure of some render. *)
Inductive LoopEvent :=
| effect_runs (connected : bool)
| cleanup_runs
| frame_fires (connected : bool) (identity : option Identity).

Definition loopStep (w : World) (ev : LoopEvent) : World :=
  match ev with
  | effect_runs connected => gameLoopEffect connected w
  | cleanup_runs => gameLoopCleanup w
  | frame_fires connected identity => animationFrame connected identity w
  end.

(** The frame loop owns at most one scheduled frame, the one whose handle
    [animationFrameIdRef] holds. *)
Definition loop_owns_its_frame (w : World) : Prop :=
  rafPending (browser w) =
    match animationFrameIdRef (refs w) with
    | Some h => [h]
    | None => []
    end.

(** *** The grid-cell mirror of the connected [GroundGrid] *)

Definition setSelectedSquares (f : gset string -> gset string) (w : World) : World :=
  mkWorld (conn w) (window_conn w) (app w) (refs w) (f (selectedSquares w)) (browser w).

(** The callbacks registered on [window.conn.db.gridSquare]. *)
Definition gridOnInsert (square : GridSquare.Data) (w : World) : World :=
  if GridSquare.selected square then
    setSelectedSquares (fun prev => let newSet := prev in {[GridSquare.key square]} ∪ newSet) w
  else w.

Definition gridOnUpdate (_oldSquare newSquare : GridSquare.Data) (w : World) : World :=
  setSelectedSquares
    (fun prev =>
       let newSet := prev in
       if GridSquare.selected newSquare then {[GridSquare.key newSquare]} ∪ newSet
       else newSet ∖ {[GridSquare.key newSquare]}) w.

Definition gridOnDelete (square : GridSquare.Data) (w : World) : World :=
  setSelectedSquares (fun prev => let newSet := prev in newSet ∖ {[GridSquare.key square]}) w.

(** The [onApplied] callback of the grid subscription: the selected keys of
    the cached rows replace the set. *)
Definition gridOnApplied (w : World) : World :=
  let w := log ["Grid square subscription applied"] w in
  match window_conn w with
  | Some c =>
      let initialSelected :=
        fold_left (fun acc square =>
                     if GridSquare.selected square
                     then {[GridSquare.key square]} ∪ acc else acc)
                  (db_gridSquare c) (∅ : gset string) in
      setSelectedSquares (fun _ => initialSelected) w
  | None => w
  end.

(** The change notifications of the [grid_square] table. *)
Inductive GridEvent :=
| GridInsert (square : GridSquare.Data)
| GridUpdate (oldSquare newSquare : GridSquare.Data)
| GridDelete (square : GridSquare.Data).

Definition gridDeliver (w : World) (ev : GridEvent) : World :=
  match ev with
  | GridInsert sq => gridOnInsert sq w
  | GridUpdate old new => gridOnUpdate old new w
  | GridDelete sq => gridOnDelete sq w
  end.

(** The [grid_square] table the notifications describe: an insert or an
    update stores the row under its key, a delete removes the key. *)
Definition gridTableStep (t : gmap string GridSquare.Data) (ev : GridEvent)
  : gmap string GridSquare.Data :=
  match ev with
  | GridInsert sq => <[GridSquare.key sq := sq]> t
  | GridUpdate _ sq => <[GridSquare.key sq := sq]> t
  | GridDelete sq => base.delete (GridSquare.key sq) t
  end.

(** Every insert of the sequence is for a key the table does not hold at
    that point, as the table's unique key implies. *)
Fixpoint insertsAreFresh (t : gmap string GridSquare.Data) (evs : list GridEvent) : Prop :=
  match evs with
  | [] => True
  | ev :: rest =>
      match ev with
      | GridInsert sq => t !! GridSquare.key sq = None
      | _ => True
      end /\ insertsAreFresh (gridTableStep t ev) rest
  end.

(** The selected set holds exactly the keys whose row is selected. *)
Definition selectionTracks (s : gset string) (t : gmap string GridSquare.Data) : Prop :=
  forall k, k ∈ s <-> exists row, t !! k = Some row /\ GridSquare.selected row = true.

(** ** Reference map of the specification *)

(** The replay the specification describes: a map keyed by the identity's
    hex string in which insert and update both bind the key to the new
    record and delete removes the key. *)
Definition reference_step (m : gmap string PlayerData) (ev : TableEvent)
  : gmap string PlayerData :=
  match ev with
  | Insert p => <[playerKey p := p]> m
  | Update _ p => <[playerKey p := p]> m
  | Delete p => base.delete (playerKey p) m
  end.

Definition reference_replay (evs : list TableEvent) (m : gmap string PlayerData)
  : gmap string PlayerData :=
  fold_left reference_step evs m.

(** The contents of a mirror, as a finite map. *)
Definition contents (m : list (string * PlayerData)) : gmap string PlayerData :=
  list_to_map m.

(** A mirror holds at most one entry per key, and every entry sits under
    the hex string of its own identity. *)
Definition mirror_wf (m : list (string * PlayerData)) : Prop :=
  List.NoDup (map fst m) /\ List.Forall (fun kv => fst kv = playerKey (snd kv)) m.

(** A float lies in the closed interval of the vertical angle. *)
Definition pitch_in_range (x : float) : Prop :=
  (pitch_min <=? x)%float = true /\ (x <=? pitch_max)%float = true.

(** The session as [gameLoop] sees it. *)
Definition session_active (connected : bool) (identity : option Identity) (w : World)
  : Prop :=
  connected = true /\ is_Some (conn w) /\ is_Some identity.

End Client.

Arguments DbConnection : clear implicits.
Arguments AppState : clear implicits.
Arguments World : clear implicits.
Arguments TableEvent : clear implicits.

(** ** The ground grid *)

(** A loop counter as a number, and as the text a template literal gives
    it: for a non-negative integer, its decimal digits. *)
Definition js_number (n : nat) : float := of_uint63 (Uint63.of_Z (Z.of_nat n)).

(** The binary64 number that holds the integer [x], for an integer that is
    such a number and lies within the 63-bit range. *)
Definition js_integer (x : Z) : float :=
  if x <? 0 then (- of_uint63 (Uint63.of_Z (- x)))%float
  else of_uint63 (Uint63.of_Z x).
Definition js_toString (n : nat) : string :=
  DecimalString.NilEmpty.string_of_uint (Nat.to_uint n).

Module GroundGrid.

(** The props of [GroundGrid] that its geometry and colours depend on;
    [rows] and [columns] are counts.  The material props (texture,
    roughness, metalness, opacity) only reach the renderer. *)
Record Props := mkProps {
  size : float;
  gap : float;
  rows : nat;
  columns : nat;
  centerGrid : bool;
  color : string;
  alternateColors : bool;
  secondColor : string;
  elevation : float;
  height : float;
  selectedColor : string
}.

(** The defaults of the destructured props: size 2, gap 0.2, 20 by 20,
    centred, alternating colours, elevation 0, height 0.05. *)
Definition defaultProps : Props :=
  mkProps 2 0x1.999999999999ap-3 20 20 true "#1a5fb4" true "#99c1f1"
          0 0x1.999999999999ap-5 "#ffcc00".

Definition totalWidth (p : Props) : float :=
  (js_number (columns p) * size p + (js_number (columns p) - 1) * gap p)%float.
Definition totalDepth (p : Props) : float :=
  (js_number (rows p) * size p + (js_number (rows p) - 1) * gap p)%float.
Definition offsetX (p : Props) : float :=
  if centerGrid p then (- totalWidth p / 2)%float else 0%float.
Definition offsetZ (p : Props) : float :=
  if centerGrid p then (- totalDepth p / 2)%float else 0%float.

(** An element of [squaresArray]. *)
Record Square := mkSquare {
  position : float * float * float;
  square_color : string;
  key : string
}.

(** The body of the inner loop of [squares], for one [row] and [col]. *)
Definition squareAt (p : Props) (row col : nat) : Square :=
  let x := (offsetX p + js_number col * (size p + gap p) + size p / 2)%float in
  let y := (elevation p + height p / 2)%float in
  let z := (offsetZ p + js_number row * (size p + gap p) + size p / 2)%float in
  let isAlternate := Nat.eqb ((row + col) mod 2) 1 in
  let squareColor := if alternateColors p && isAlternate then secondColor p else color p in
  let key := "square-" +:+ js_toString row +:+ "-" +:+ js_toString col in
  mkSquare (x, y, z) squareColor key.

(** [squares]: the two nested loops push the squares row by row. *)
Definition squares (p : Props) : list Square :=
  flat_map (fun row => map (fun col => squareAt p row col) (seq 0 (columns p)))
           (seq 0 (rows p)).

(** The colour a mesh is rendered with. *)
Definition materialColor (p : Props) (selectedSquares : gset string) (square : Square)
  : string :=
  if bool_decide (key square ∈ selectedSquares) then selectedColor p
  else square_color square.

(** [handleClick(key)] of the component variant that keeps the selection
    locally ([components/GroundGrid.tsx]): the state is the set. *)
Definition handleClickLocal (key : string) (selectedSquares : gset string) : gset string :=
  let newSelected := selectedSquares in
  if bool_decide (key ∈ newSelected) then newSelected ∖ {[key]}
  else {[key]} ∪ newSelected.

End GroundGrid.

(** ** The generated handle of the [grid_square] table *)

Module GridSquareTable.

(** [GridSquareTableHandle], with the rows its [tableCache] holds in
    iteration order. *)
Record Handle := mkHandle { tableCache : list GridSquare.Data }.

Definition count (h : Handle) : Z := Z.of_nat (length (tableCache h)).
Definition iter (h : Handle) : list GridSquare.Data := tableCache h.

(** [key.find(col_val)]: the first cached row whose [key] equals [col_val]
    ([deepEqual] on two strings is string equality), or [undefined]. *)
Definition find (h : Handle) (col_val : string) : option GridSquare.Data :=
  List.find (fun row => String.eqb (GridSquare.key row) col_val) (iter h).

End GridSquareTable.

(** ** Sample data *)

(** A concrete row type with the two columns the client reads and one more,
    and a few worlds built from it, used to exercise the statements below. *)
Module Sample.

Record Row := mkRow {
  row_identity : Identity;
  row_username : string;
  row_health : Z
}.

#[global] Instance Row_is_player : Player.Row Row :=
  {| Player.identity := row_identity; Player.username := row_username |}.

Definition alice : Row := mkRow (mkIdentity "c200aa") "alice" 100.
Definition bob : Row := mkRow (mkIdentity "c200bb") "bob" 80.
Definition alice_hurt : Row := mkRow (mkIdentity "c200aa") "alice" 35.

Definition server : DbConnection Row :=
  mkDbConnection [alice; bob] [GridSquare.mkData "square-0-0" true] (fun _ => None).

(** The state of a freshly mounted component, before [onConnect]. *)
Definition initial : World Row :=
  mkWorld None None
    (mkAppState false None "Connecting..." JsMap.empty None false false)
    (mkRefs initialInput None None (THREE.mkEuler 0 0 0 "YXZ"))
    ∅
    (mkBrowser None [] [] [] 1%positive).

(** A connected session whose mirror holds one player and whose frame loop
    is scheduled. *)
Definition online : World Row :=
  mkWorld (Some server) (Some server)
    (mkAppState true (Some (mkIdentity "c200aa")) "Connected as c200aa..."
       [("c200aa", alice)] (Some alice) false true)
    (mkRefs initialInput None (Some 7%positive) (THREE.mkEuler 0 0 0 "YXZ"))
    {["square-0-0"]}
    (mkBrowser (Some document_body) [] [registerPlayer "alice" "Wizard"]
       [7%positive] 8%positive).

Definition me : option Identity := Some (mkIdentity "c200aa").

(** Integers that are binary64 numbers, of both signs, on both sides of
    [2^53] and [2^54]: a significand below [2^53] times a power of two. *)
Definition binary64_integers : list Z :=
  flat_map
    (fun k =>
       flat_map (fun m => [m * 2 ^ k; - (m * 2 ^ k)])
         [0; 1; 2; 3; 5; 1000001; 2 ^ 52 - 1; 2 ^ 52; 2 ^ 52 + 1; 2 ^ 52 + 2;
          2 ^ 52 + 3; 2 ^ 53 - 4; 2 ^ 53 - 3; 2 ^ 53 - 2; 2 ^ 53 - 1;
          4503599627370497; 6004799503160661; 7777777777777777])
    [0; 1; 2; 3; 4; 5; 8].

(** The same session with its sequence counter just past one million. *)
Definition online_high_sequence : World Row :=
  set_currentInputRef (set_sequence 1000001 initialInput) online.

(** A session whose subscription is about to be confirmed: connected, with
    an empty mirror. *)
Definition subscribed : World Row :=
  set_conn (Some server) (set_window_conn (Some server) (setConnected true initial)).

(** The W key goes down, not as a repeat. *)
Definition press_w : Keyboard.Event := Keyboard.mkEvent "KeyW" false.

(** A key the table does not list. *)
Definition press_q : Keyboard.Event := Keyboard.mkEvent "KeyQ" false.

(** A mouse movement of 250 pixels to the right, with no vertical part. *)
Definition pan : MouseEvent := mkMouseEvent 0 250 0.

(** The [grid_square] table behind [online]: one selected cell. *)
Definition grid_table : gmap string GridSquare.Data :=
  {["square-0-0" := GridSquare.mkData "square-0-0" true]}.

(** The cell is deselected, then another, selected cell appears. *)
Definition grid_events : list GridEvent :=
  [GridUpdate (GridSquare.mkData "square-0-0" true)
              (GridSquare.mkData "square-0-0" false);
   GridInsert (GridSquare.mkData "square-1-0" true)].

(** A mouse movement of 4000 pixels to the right and 5000 pixels down. *)
Definition sweep : MouseEvent := mkMouseEvent 0 4000 5000.

End Sample.

(** * Properties *)

(** ** Animation classifier *)

Section ClassifierFacts.
Import Classifier.

Lemma direction_of_cases (f b l r : bool) :
  In (direction_of f b l r) ["forward"; "back"; "left"; "right"].
Proof. destruct f, b, l, r; cbn; tauto. Qed.

Lemma determineAnimation_moving (i : InputState) :
  attack i = false -> castSpell i = false -> jump i = false ->
  forward i || backward i || left i || right i = true ->
  determineAnimation i =
    (if sprint i then "run" else "walk") +:+ "-" +:+
    direction_of (forward i) (backward i) (left i) (right i).
Proof.
  intros Ha Hc Hj Hm. unfold determineAnimation.
  rewrite Ha, Hc, Hj, Hm. reflexivity.
Qed.

Lemma all_snapshots_complete (i : InputState) : In i (all_snapshots (sequence i)).
Proof.
  destruct i as [f b l r s j a c n]; cbn [sequence].
  destruct f, b, l, r, s, j, a, c; vm_compute;
    repeat (first [left; reflexivity | right]).
Qed.

(** C1. With forward and left held (nothing else) the classifier returns
    "walk-forward", and with backward and right held it returns "walk-back":
    whenever exactly one of forward/backward and exactly one of left/right
    is held, the chain stops at its forward/backward branches and the
    direction is the longitudinal one, not the lateral one the claim
    names. *)
Theorem C1_diagonal_takes_longitudinal_direction :
  (forall seq,
     determineAnimation (mkInputState true false true false false false false false seq)
       = "walk-forward") /\
  (forall seq,
     determineAnimation (mkInputState false true false true false false false false seq)
       = "walk-back") /\
  (forall f l : bool,
     direction_of f (negb f) l (negb l) = if f then "forward" else "back").
Proof.
  split; [reflexivity | split; [reflexivity |]].
  intros [] []; reflexivity.
Qed.

(** C2. The classifier is a total function with one tag per snapshot; the
    tag is one of twelve literals; attack wins over everything, then
    castSpell, then jump, then movement, and "idle" is left for snapshots
    with none of these; the enumeration of flag combinations has 2^8
    members and misses none. *)
Theorem C2_classifier_total_with_priority (input : InputState) :
  (exists! tag, determineAnimation input = tag /\ In tag all_tags) /\
  (attack input = true -> determineAnimation input = "attack1") /\
  (attack input = false -> castSpell input = true ->
     determineAnimation input = "cast") /\
  (attack input = false -> castSpell input = false -> jump input = true ->
     determineAnimation input = "jump") /\
  (attack input = false -> castSpell input = false -> jump input = false ->
     forward input || backward input || left input || right input = true ->
     determineAnimation input <> "idle" /\
     determineAnimation input =
       (if sprint input then "run" else "walk") +:+ "-" +:+
       direction_of (forward input) (backward input) (left input) (right input)) /\
  (attack input = false -> castSpell input = false -> jump input = false ->
     forward input || backward input || left input || right input = false ->
     determineAnimation input = "idle") /\
  length (all_snapshots (sequence input)) = 256%nat /\
  In input (all_snapshots (sequence input)).
Proof.
  split.
  { exists (determineAnimation input). split.
    - split; [reflexivity |].
      destruct input as [f b l r s j a c n].
      destruct f, b, l, r, s, j, a, c; vm_compute;
        repeat (first [left; reflexivity | right]).
    - intros tag [H _]. exact H. }
  split. { intros Ha. unfold determineAnimation. now rewrite Ha. }
  split. { intros Ha Hc. unfold determineAnimation. now rewrite Ha, Hc. }
  split. { intros Ha Hc Hj. unfold determineAnimation. now rewrite Ha, Hc, Hj. }
  split.
  { intros Ha Hc Hj Hm. split.
    - rewrite (determineAnimation_moving input Ha Hc Hj Hm).
      destruct (sprint input), (forward input), (backward input),
        (left input), (right input); discriminate.
    - exact (determineAnimation_moving input Ha Hc Hj Hm). }
  split.
  { intros Ha Hc Hj Hm. unfold determineAnimation. now rewrite Ha, Hc, Hj, Hm. }
  split; [reflexivity | apply all_snapshots_complete].
Qed.

(** C10. Two snapshots that agree on the eight action flags get the same
    tag, whatever their sequence counters are. *)
Theorem C10_classifier_ignores_sequence (a b : InputState) :
  same_flags a b -> determineAnimation a = determineAnimation b.
Proof.
  intros (Hf & Hb & Hl & Hr & Hs & Hj & Ha & Hc).
  unfold determineAnimation. now rewrite Hf, Hb, Hl, Hr, Hs, Hj, Ha, Hc.
Qed.

Lemma C10_classifier_ignores_sequence_witness :
  same_flags (mkInputState true false false true true false false false 1)
             (mkInputState true false false true true false false false 1000001) /\
  determineAnimation (mkInputState true false false true true false false false 1)
  = determineAnimation (mkInputState true false false true true false false false 1000001).
Proof.
  split.
  - repeat split.
  - apply C10_classifier_ignores_sequence. repeat split.
Defined.

End ClassifierFacts.

(** ** Frame loop, dispatch and connection lifecycle *)

Section LoopFacts.
Context {PlayerData : Type} `{!Player.Row PlayerData}.
Implicit Types (w : World PlayerData) (identity : option Identity).

Lemma filter_subset (f : positive -> bool) (l : list positive) (h : positive) :
  In h (List.filter f l) -> In h l.
Proof. intros Hin. apply List.filter_In in Hin. tauto. Qed.

Lemma cancelled_not_pending (h : positive) (l : list positive) :
  ~ In h (List.filter (fun h' => negb (Pos.eqb h h')) l).
Proof.
  intros Hin. apply List.filter_In in Hin as [_ Hne].
  rewrite Pos.eqb_refl in Hne. discriminate.
Qed.

(** What a run of [gameLoop] does while the session is active. *)
Lemma gameLoop_active connected identity w :
  session_active connected identity w ->
  gameLoop connected identity w =
    set_animationFrameIdRef (Some (rafNext (browser w)))
      (snd (requestAnimationFrame
              (set_currentInputRef
                 (set_sequence (js_increment (sequence (currentInputRef (refs w))))
                               (currentInputRef (refs w))) w))).
Proof.
  intros (-> & [c Hc] & [i ->]). unfold gameLoop. rewrite Hc. reflexivity.
Qed.

(** What a run of [gameLoop] does once the session is not active. *)
Lemma gameLoop_inactive connected identity w :
  ~ session_active connected identity w ->
  gameLoop connected identity w =
    match animationFrameIdRef (refs w) with
    | Some h => set_animationFrameIdRef None (cancelAnimationFrame h w)
    | None => w
    end.
Proof.
  intros Hn. unfold gameLoop.
  destruct connected; [| reflexivity].
  destruct (conn w) as [c |] eqn:Hc; [| reflexivity].
  destruct identity as [i |]; [| reflexivity].
  exfalso. apply Hn. repeat split; eauto.
Qed.

Lemma gameLoop_keeps_session connected identity w :
  session_active connected identity w ->
  session_active connected identity (gameLoop connected identity w).
Proof.
  intros Ha. rewrite (gameLoop_active _ _ _ Ha).
  destruct Ha as (Hc & Hconn & Hid). repeat split; assumption.
Qed.

Lemma gameLoop_remoteCalls connected identity w :
  remoteCalls (browser (gameLoop connected identity w)) = remoteCalls (browser w).
Proof.
  unfold gameLoop.
  destruct (negb connected || isNull (conn w) || isNull identity).
  - destruct (animationFrameIdRef (refs w)); reflexivity.
  - reflexivity.
Qed.

Lemma ticks_remoteCalls n connected identity w :
  remoteCalls (browser (ticks n connected identity w)) = remoteCalls (browser w).
Proof.
  revert w. induction n as [| n IH]; intros w; cbn [ticks].
  - reflexivity.
  - rewrite IH. apply gameLoop_remoteCalls.
Qed.

Lemma gameLoop_sequence connected identity w :
  session_active connected identity w ->
  sequence (currentInputRef (refs (gameLoop connected identity w)))
  = js_increment (sequence (currentInputRef (refs w))).
Proof. intros Ha. rewrite (gameLoop_active _ _ _ Ha). reflexivity. Qed.

Lemma js_increment_safe (x : Z) :
  0 <= x -> x < MAX_SAFE_STEP -> js_increment x = x + 1.
Proof.
  intros H0 Hx. unfold js_increment.
  destruct (Z.leb_spec (Z.abs (x + 1)) MAX_SAFE_STEP); [reflexivity | lia].
Qed.

(** On the sample integers the model of [+= 1] gives the number that
    binary64 addition gives. *)
Lemma js_increment_is_binary64_addition_on_samples :
  forallb (fun x => (js_integer (js_increment x) =? js_integer x + 1)%float)
          Sample.binary64_integers = true.
Proof. vm_compute. reflexivity. Qed.

Lemma ticks_sequence n connected identity w :
  session_active connected identity w ->
  0 <= sequence (currentInputRef (refs w)) ->
  sequence (currentInputRef (refs w)) + Z.of_nat n <= MAX_SAFE_STEP ->
  sequence (currentInputRef (refs (ticks n connected identity w)))
  = sequence (currentInputRef (refs w)) + Z.of_nat n.
Proof.
  revert w. induction n as [| n IH]; intros w Ha H0 Hb; cbn [ticks].
  - lia.
  - rewrite IH.
    + rewrite (gameLoop_sequence _ _ _ Ha), js_increment_safe; lia.
    + apply gameLoop_keeps_session, Ha.
    + rewrite (gameLoop_sequence _ _ _ Ha), js_increment_safe; lia.
    + rewrite (gameLoop_sequence _ _ _ Ha), js_increment_safe; lia.
Qed.

(** C3 (as amended). While the session is active, a run of the game loop
    raises the sequence counter by exactly one, so the counter strictly
    increases from tick to tick (for a counter from 0 up to below 2^53,
    where binary64 addition of one is exact); the dispatch never writes the
    counter, so it is not reset, whatever its value: after [n] ticks it has
    grown by [n]. *)
Theorem C3_sequence_steps_by_one_without_reset connected identity w :
  session_active connected identity w ->
  0 <= sequence (currentInputRef (refs w)) ->
  sequence (currentInputRef (refs w)) < MAX_SAFE_STEP ->
  sequence (currentInputRef (refs (gameLoop connected identity w)))
    = sequence (currentInputRef (refs w)) + 1 /\
  sequence (currentInputRef (refs w))
    < sequence (currentInputRef (refs (gameLoop connected identity w))) /\
  (forall input w',
     sequence (currentInputRef (refs (sendInput input w')))
     = sequence (currentInputRef (refs w'))) /\
  (forall n : nat,
     sequence (currentInputRef (refs w)) + Z.of_nat n <= MAX_SAFE_STEP ->
     sequence (currentInputRef (refs (ticks n connected identity w)))
     = sequence (currentInputRef (refs w)) + Z.of_nat n).
Proof.
  intros Ha H0 Hs.
  rewrite (gameLoop_sequence _ _ _ Ha), (js_increment_safe _ H0 Hs).
  split; [reflexivity | split; [lia | split]].
  - reflexivity.
  - intros n Hn. apply ticks_sequence; assumption.
Qed.

(** C4. [sendInput] returns the world it was given, for every snapshot: no
    reducer call is added, and the current snapshot, the last-sent snapshot
    and the player mirror are the same objects as before; hence no number of
    game-loop ticks sends anything to the remote store. *)
Theorem C4_sendInput_is_a_noop (input : InputState) w :
  sendInput input w = w /\
  remoteCalls (browser (sendInput input w)) = remoteCalls (browser w) /\
  currentInputRef (refs (sendInput input w)) = currentInputRef (refs w) /\
  lastSentInputState (refs (sendInput input w)) = lastSentInputState (refs w) /\
  players (app (sendInput input w)) = players (app w) /\
  (forall (n : nat) connected identity,
     remoteCalls (browser (ticks n connected identity w)) = remoteCalls (browser w)).
Proof.
  repeat split. intros n connected identity. apply ticks_remoteCalls.
Qed.

(** C7. With no connection ([window.conn] and [conn] both null), a click on
    a grid cell and a join request only write one error line to the console:
    no reducer call is made, and the selected-cell set, the player mirror and
    every other piece of state stay as they were. *)
Theorem C7_actions_without_connection_make_no_call
  (key username characterClass : string) w :
  window_conn w = None -> conn w = None ->
  handleClick key w
    = error ["Cannot toggle grid square - not connected to server"] w /\
  remoteCalls (browser (handleClick key w)) = remoteCalls (browser w) /\
  selectedSquares (handleClick key w) = selectedSquares w /\
  app (handleClick key w) = app w /\
  refs (handleClick key w) = refs w /\
  handleJoinGame username characterClass w
    = error ["Cannot join game, not connected."] w /\
  remoteCalls (browser (handleJoinGame username characterClass w))
    = remoteCalls (browser w) /\
  app (handleJoinGame username characterClass w) = app w.
Proof.
  intros Hw Hc. unfold handleClick, handleJoinGame. rewrite Hw, Hc.
  repeat split.
Qed.

(** C8. Right after [onDisconnect] the player mirror is empty, there is no
    local player and the connected flag is false.  The next run of
    [gameLoop], whatever values of [connected] and [identity] its closure
    still holds, clears the frame handle, cancels the frame it designated
    and schedules nothing; the same holds for a run in any world where the
    session is not active. *)
Theorem C8_disconnect_empties_mirror_and_stops_loop
  (reason : option string) (held_connected : bool) (held_identity : option Identity) w :
  players (app (onDisconnect reason w)) = JsMap.empty /\
  localPlayer (app (onDisconnect reason w)) = None /\
  connected (app (onDisconnect reason w)) = false /\
  identity (app (onDisconnect reason w)) = None /\
  conn (onDisconnect reason w) = None /\
  ~ session_active held_connected held_identity (onDisconnect reason w) /\
  animationFrameIdRef
    (refs (gameLoop held_connected held_identity (onDisconnect reason w))) = None /\
  (forall w',
     ~ session_active held_connected held_identity w' ->
     animationFrameIdRef (refs (gameLoop held_connected held_identity w')) = None /\
     rafNext (browser (gameLoop held_connected held_identity w')) = rafNext (browser w') /\
     (forall h, In h (rafPending (browser (gameLoop held_connected held_identity w'))) ->
                In h (rafPending (browser w'))) /\
     (forall h, animationFrameIdRef (refs w') = Some h ->
                ~ In h (rafPending (browser (gameLoop held_connected held_identity w')))) /\
     currentInputRef (refs (gameLoop held_connected held_identity w'))
       = currentInputRef (refs w')).
Proof.
  assert (Hstop : forall w',
     ~ session_active held_connected held_identity w' ->
     animationFrameIdRef (refs (gameLoop held_connected held_identity w')) = None /\
     rafNext (browser (gameLoop held_connected held_identity w')) = rafNext (browser w') /\
     (forall h, In h (rafPending (browser (gameLoop held_connected held_identity w'))) ->
                In h (rafPending (browser w'))) /\
     (forall h, animationFrameIdRef (refs w') = Some h ->
                ~ In h (rafPending (browser (gameLoop held_connected held_identity w')))) /\
     currentInputRef (refs (gameLoop held_connected held_identity w'))
       = currentInputRef (refs w')).
  { intros w' Hn. rewrite (gameLoop_inactive _ _ _ Hn).
    destruct (animationFrameIdRef (refs w')) as [h |] eqn:Hh; cbn.
    - repeat split.
      + intros h'. apply filter_subset.
      + intros h' [= <-]. apply cancelled_not_pending.
    - rewrite Hh. repeat split; [tauto | discriminate]. }
  assert (Hoff : ~ session_active held_connected held_identity (onDisconnect reason w)).
  { intros (_ & [c Hc] & _). discriminate Hc. }
  repeat (split; [reflexivity |]).
  split; [exact Hoff |].
  split; [exact (proj1 (Hstop _ Hoff)) | exact Hstop].
Qed.

End LoopFacts.

Lemma online_high_sequence_active :
  session_active true Sample.me Sample.online_high_sequence.
Proof. split; [reflexivity | split; eexists; reflexivity]. Qed.

(** C3, the claim as stated fails: in a connected session whose counter is
    1,000,001 the next tick leaves it at 1,000,002 and the one after at
    1,000,003; it is not reset to 1. *)
Lemma C3_sequence_reset_counterexample :
  session_active true Sample.me Sample.online_high_sequence /\
  1000000 < sequence (currentInputRef (refs Sample.online_high_sequence)) /\
  sequence (currentInputRef
              (refs (gameLoop true Sample.me Sample.online_high_sequence))) = 1000002 /\
  sequence (currentInputRef
              (refs (gameLoop true Sample.me Sample.online_high_sequence))) <> 1 /\
  sequence (currentInputRef
              (refs (ticks 2 true Sample.me Sample.online_high_sequence))) = 1000003.
Proof.
  split; [exact online_high_sequence_active |].
  repeat split; vm_compute; congruence.
Qed.

Lemma C3_sequence_steps_by_one_without_reset_witness :
  session_active true Sample.me Sample.online_high_sequence /\
  0 <= sequence (currentInputRef (refs Sample.online_high_sequence)) /\
  sequence (currentInputRef (refs Sample.online_high_sequence)) < MAX_SAFE_STEP /\
  sequence (currentInputRef
              (refs (gameLoop true Sample.me Sample.online_high_sequence)))
  = 1000001 + 1.
Proof.
  split; [exact online_high_sequence_active |].
  split; [vm_compute; discriminate |].
  split; [reflexivity |].
  apply (C3_sequence_steps_by_one_without_reset
           true Sample.me Sample.online_high_sequence).
  - exact online_high_sequence_active.
  - vm_compute. discriminate.
  - reflexivity.
Defined.

Lemma C7_actions_without_connection_make_no_call_witness :
  window_conn Sample.initial = None /\ conn Sample.initial = None /\
  remoteCalls (browser (handleClick "square-0-0" Sample.initial)) = [] /\
  remoteCalls (browser (handleJoinGame "alice" "Wizard" Sample.initial)) = [].
Proof.
  split; [reflexivity | split; [reflexivity |]].
  pose proof (C7_actions_without_connection_make_no_call
                "square-0-0" "alice" "Wizard" Sample.initial
                eq_refl eq_refl) as (_ & Hclick & _ & _ & _ & _ & Hjoin & _).
  split; [exact Hclick | exact Hjoin].
Defined.

(** ** Player mirror *)

Section MapFacts.
Context {V : Type}.
Implicit Types (m : list (string * V)) (k : string) (v : V).

Lemma contents_set k v m :
  list_to_map (JsMap.set k v m) =@{gmap string V} <[k := v]> (list_to_map m).
Proof.
  induction m as [| [k' v'] rest IH]; cbn [JsMap.set].
  - reflexivity.
  - destruct (String.eqb_spec k k') as [<- | Hne].
    + rewrite !list_to_map_cons. now rewrite insert_insert_eq.
    + rewrite !list_to_map_cons, IH. now apply insert_insert_ne.
Qed.

Lemma contents_delete k m :
  list_to_map (JsMap.delete k m) =@{gmap string V} base.delete k (list_to_map m).
Proof.
  induction m as [| [k' v'] rest IH]; cbn [JsMap.delete].
  - now rewrite list_to_map_nil, delete_empty.
  - destruct (String.eqb_spec k k') as [<- | Hne].
    + now rewrite list_to_map_cons, delete_insert_eq.
    + rewrite !list_to_map_cons, IH. symmetry. now apply delete_insert_ne.
Qed.

Lemma contents_get k m :
  (list_to_map m : gmap string V) !! k = JsMap.get k m.
Proof.
  induction m as [| [k' v'] rest IH]; cbn [JsMap.get].
  - apply lookup_empty.
  - rewrite list_to_map_cons.
    destruct (String.eqb_spec k k') as [<- | Hne].
    + apply lookup_insert_eq.
    + rewrite lookup_insert_ne by congruence. exact IH.
Qed.

(** Deleting a key the map does not hold changes nothing. *)
Lemma delete_absent k m : JsMap.get k m = None -> JsMap.delete k m = m.
Proof.
  induction m as [| [k' v'] rest IH]; cbn [JsMap.get JsMap.delete].
  - reflexivity.
  - destruct (String.eqb k k'); [discriminate |].
    intros Hg. now rewrite IH.
Qed.

End MapFacts.

Section MirrorFacts.
Context {PlayerData : Type} `{!Player.Row PlayerData}.
Implicit Types (w : World PlayerData) (identity : option Identity).

Lemma players_onInsert identity p w :
  players (app (onInsert identity p w)) = JsMap.set (playerKey p) p (players (app w)).
Proof. unfold onInsert. destruct (isLocal identity p); reflexivity. Qed.

Lemma players_onUpdate identity old p w :
  players (app (onUpdate identity old p w)) = JsMap.set (playerKey p) p (players (app w)).
Proof. unfold onUpdate. destruct (isLocal identity p); reflexivity. Qed.

Lemma players_onDelete identity p w :
  players (app (onDelete identity p w)) = JsMap.delete (playerKey p) (players (app w)).
Proof. unfold onDelete. destruct (isLocal identity p); reflexivity. Qed.

(** One notification moves the mirror as the reference map moves. *)
Lemma deliver_refines identity w ev :
  contents (players (app (deliver identity w ev)))
  = reference_step (contents (players (app w))) ev.
Proof.
  unfold contents.
  destruct ev as [p | old p | p]; cbn [deliver reference_step].
  - rewrite players_onInsert. apply contents_set.
  - rewrite players_onUpdate. apply contents_set.
  - rewrite players_onDelete. apply contents_delete.
Qed.

(** C5. For every sequence of insert, update and delete notifications and
    every starting mirror, the contents of the mirror after the callbacks
    have run in order are those of the reference map after the same replay
    (insert and update bind the key, delete removes it), and a lookup in the
    mirror answers as the reference map does. *)
Theorem C5_mirror_replay_matches_reference identity (evs : list (TableEvent PlayerData)) w :
  contents (players (app (replay identity evs w)))
    = reference_replay evs (contents (players (app w))) /\
  (forall k : string,
     JsMap.get k (players (app (replay identity evs w)))
     = reference_replay evs (contents (players (app w))) !! k).
Proof.
  assert (Heq : contents (players (app (replay identity evs w)))
                = reference_replay evs (contents (players (app w)))).
  { unfold replay, reference_replay. revert w.
    induction evs as [| ev evs IH]; intros w; cbn [fold_left].
    - reflexivity.
    - rewrite IH. now rewrite deliver_refines. }
  split; [exact Heq |].
  intros k. rewrite <- Heq. symmetry. apply contents_get.
Qed.

(** The map built by the loop of [onSubscriptionApplied]. *)
Lemma loadRow_fold identity (rows : list PlayerData) m w :
  fst (fold_left (loadRow identity) rows (m, w))
  = fold_left (fun currentPlayers player =>
                 JsMap.set (playerKey player) player currentPlayers) rows m.
Proof.
  revert m w. induction rows as [| p rows IH]; intros m w; cbn [fold_left].
  - reflexivity.
  - cbn [loadRow]. apply IH.
Qed.

(** C6. When [onApplied] fires on a live connection, the mirror becomes the
    map loaded from the cached rows if its size is zero at that moment, and
    is left as it is if its size is not zero. *)
Theorem C6_initial_load_iff_mirror_empty identity w (c : DbConnection PlayerData) :
  conn w = Some c ->
  (JsMap.size (players (app w)) = 0 ->
     players (app (onSubscriptionApplied identity w)) = initialLoad (db_player c)) /\
  (JsMap.size (players (app w)) <> 0 ->
     players (app (onSubscriptionApplied identity w)) = players (app w)) /\
  (players (app (onSubscriptionApplied identity w)) <> players (app w) ->
     JsMap.size (players (app w)) = 0).
Proof.
  intros Hc.
  assert (Hne : JsMap.size (players (app w)) <> 0 ->
                players (app (onSubscriptionApplied identity w)) = players (app w)).
  { intros Hs. unfold onSubscriptionApplied. cbn.
    destruct (Z.eqb_spec (JsMap.size (players (app w))) 0); [contradiction | reflexivity]. }
  split; [| split; [exact Hne |]].
  - intros Hs. unfold onSubscriptionApplied. cbn.
    rewrite Hs, Hc. cbn.
    pose proof (loadRow_fold identity (db_player c) JsMap.empty
                  (log ["Subscription applied successfully."] w)) as Hfold.
    destruct (fold_left (loadRow identity) (db_player c)
                (JsMap.empty, log ["Subscription applied successfully."] w))
      as [currentPlayers w'].
    cbn in Hfold |- *. exact Hfold.
  - intros Hchg. destruct (Z.eq_dec (JsMap.size (players (app w))) 0) as [Hz | Hnz].
    + exact Hz.
    + exfalso. apply Hchg. apply Hne, Hnz.
Qed.

(** The loaded map holds the cached rows under their keys: it is the
    reference map after inserting the rows in order. *)
Lemma initialLoad_contents (rows : list PlayerData) :
  contents (initialLoad rows)
  = fold_left (fun m p => <[playerKey p := p]> m) rows (∅ : gmap string PlayerData).
Proof.
  unfold initialLoad, contents.
  change (∅ : gmap string PlayerData) with (list_to_map JsMap.empty : gmap string PlayerData).
  generalize (@JsMap.empty PlayerData).
  induction rows as [| p rows IH]; intros m; cbn [fold_left].
  - reflexivity.
  - rewrite IH. now rewrite contents_set.
Qed.

End MirrorFacts.

Lemma C6_initial_load_iff_mirror_empty_witness :
  conn Sample.subscribed = Some Sample.server /\
  JsMap.size (players (app Sample.subscribed)) = 0 /\
  players (app (onSubscriptionApplied Sample.me Sample.subscribed))
  = [("c200aa", Sample.alice); ("c200bb", Sample.bob)].
Proof.
  split; [reflexivity | split; [reflexivity |]].
  exact (proj1 (C6_initial_load_iff_mirror_empty
                  Sample.me Sample.subscribed Sample.server eq_refl) eq_refl).
Defined.

(** ** Pointer-lock rotation *)

(** *** Binary64 arithmetic never turns finite operands into [NaN] *)

Section SpecFloatFacts.
Variables prec emax : Z.

Lemma iter_pos_invariant {A : Type} (P : A -> Prop) (f : A -> A) :
  (forall a, P a -> P (f a)) -> forall n a, P a -> P (SpecFloat.iter_pos f n a).
Proof.
  intros Hf. induction n as [n IH | n IH |]; intros a Ha; cbn [SpecFloat.iter_pos].
  - apply IH, IH, Hf, Ha.
  - apply IH, IH, Ha.
  - apply Hf, Ha.
Qed.

Lemma shr_1_nonneg (mrs : shr_record) : 0 <= shr_m mrs -> 0 <= shr_m (shr_1 mrs).
Proof.
  destruct mrs as [m r s]. cbn [shr_m]. intros Hm.
  destruct m as [| p | p]; [| | lia]; cbn.
  - lia.
  - destruct p; cbn; lia.
Qed.

Lemma shr_fexp_nonneg (m e : Z) (l : location) :
  0 <= m -> 0 <= shr_m (fst (shr_fexp prec emax m e l)).
Proof.
  intros Hm. unfold shr_fexp, shr.
  assert (H0 : 0 <= shr_m (shr_record_of_loc m l)).
  { destruct l as [| []]; exact Hm. }
  destruct (fexp prec emax (Zdigits2 m + e) - e) as [| p | p]; cbn [fst]; try exact H0.
  apply (iter_pos_invariant (fun mrs => 0 <= shr_m mrs)); [apply shr_1_nonneg | exact H0].
Qed.

Lemma round_nearest_even_nonneg (m : Z) (l : location) :
  0 <= m -> 0 <= round_nearest_even m l.
Proof.
  intros Hm. unfold round_nearest_even.
  destruct l as [| []]; try lia. destruct (Z.even m); lia.
Qed.

Lemma binary_round_aux_not_nan (sx : bool) (mx ex : Z) (lx : location) :
  0 <= mx -> binary_round_aux prec emax sx mx ex lx <> S754_nan.
Proof.
  intros Hm. unfold binary_round_aux.
  pose proof (shr_fexp_nonneg mx ex lx Hm) as H1.
  destruct (shr_fexp prec emax mx ex lx) as [mrs' e']. cbn [fst] in H1.
  pose proof (shr_fexp_nonneg
                (round_nearest_even (shr_m mrs') (loc_of_shr_record mrs')) e' loc_Exact
                (round_nearest_even_nonneg _ _ H1)) as H2.
  destruct (shr_fexp prec emax _ e' loc_Exact) as [mrs'' e'']. cbn [fst] in H2.
  destruct (shr_m mrs'') as [| p | p]; [discriminate | | lia].
  destruct (e'' <=? emax - prec); discriminate.
Qed.

Lemma binary_round_not_nan (sx : bool) (mx : positive) (ex : Z) :
  binary_round prec emax sx mx ex <> S754_nan.
Proof.
  unfold binary_round. destruct (shl_align mx ex _) as [mz ez].
  apply binary_round_aux_not_nan. lia.
Qed.

Lemma binary_normalize_not_nan (m e : Z) (szero : bool) :
  binary_normalize prec emax m e szero <> S754_nan.
Proof.
  unfold binary_normalize. destruct m; [discriminate | |]; apply binary_round_not_nan.
Qed.

(** A product is [NaN] only if a factor is, or if the factors are a zero and an infinity. *)
Lemma SFmul_finite_not_nan (a : spec_float) (s : bool) (m : positive) (e : Z) :
  a <> S754_nan -> SFmul prec emax a (S754_finite s m e) <> S754_nan.
Proof.
  intros Ha. destruct a as [sa | sa | | sa ma ea]; cbn [SFmul]; try discriminate.
  - contradiction.
  - apply binary_round_aux_not_nan. lia.
Qed.

Lemma SFsub_bounded_not_nan (a b : spec_float) :
  SF_is_bounded a = true -> b <> S754_nan -> SFsub prec emax a b <> S754_nan.
Proof.
  intros Ha Hb.
  destruct a as [sa | sa | | sa ma ea]; try discriminate Ha;
    destruct b as [sb | sb | | sb mb eb]; cbn [SFsub]; try discriminate; try contradiction.
  - destruct sa, sb; discriminate.
  - apply binary_normalize_not_nan.
Qed.
End SpecFloatFacts.

Lemma SFcompare_refl (a : spec_float) : a <> S754_nan -> SFcompare a a = Some Eq.
Proof.
  intros Ha. destruct a as [s | s | | s m e]; cbn [SFcompare].
  - reflexivity.
  - destruct s; reflexivity.
  - contradiction.
  - rewrite Z.compare_refl, Pos.compare_cont_refl. destruct s; reflexivity.
Qed.

Lemma SFcompare_antisym (a b : spec_float) :
  SFcompare b a = option_map CompOpp (SFcompare a b).
Proof.
  destruct a as [sa | sa | | sa ma ea], b as [sb | sb | | sb mb eb];
    cbn [SFcompare option_map]; try reflexivity;
    try (destruct sa; reflexivity); try (destruct sb; reflexivity);
    try (destruct sa, sb; reflexivity).
  destruct sa, sb; try reflexivity.
  - rewrite (Z.compare_antisym ea eb).
    destruct (ea ?= eb); cbn [CompOpp]; try reflexivity.
    now rewrite !Pos.compare_cont_antisym.
  - rewrite (Z.compare_antisym ea eb).
    destruct (ea ?= eb); cbn [CompOpp]; try reflexivity.
    now rewrite !Pos.compare_cont_antisym.
Qed.

Lemma SFcompare_None (a b : spec_float) :
  SFcompare a b = None -> a = S754_nan \/ b = S754_nan.
Proof.
  destruct a as [sa | sa | | sa ma ea], b as [sb | sb | | sb mb eb];
    cbn [SFcompare]; try discriminate; auto.
Qed.

(** ** Comparisons of binary64 numbers *)

Lemma is_nan_false (a : float) : is_nan a = false <-> Prim2SF a <> S754_nan.
Proof.
  unfold is_nan. rewrite FloatAxioms.eqb_spec. unfold SFeqb. split.
  - intros H Hn. rewrite Hn in H. discriminate H.
  - intros Hn. now rewrite (SFcompare_refl _ Hn).
Qed.

Lemma ltb_leb (a b : float) : (a <? b)%float = true -> (a <=? b)%float = true.
Proof.
  rewrite FloatAxioms.ltb_spec, FloatAxioms.leb_spec. unfold SFltb, SFleb.
  destruct (SFcompare (Prim2SF a) (Prim2SF b)) as [[] |]; congruence.
Qed.

Lemma leb_not_nan (a b : float) :
  (a <=? b)%float = true -> is_nan a = false /\ is_nan b = false.
Proof.
  rewrite FloatAxioms.leb_spec, !is_nan_false. unfold SFleb. intros H.
  split; intros Hn; rewrite Hn in H.
  - discriminate H.
  - destruct (Prim2SF a); discriminate H.
Qed.

Lemma leb_refl (a : float) : is_nan a = false -> (a <=? a)%float = true.
Proof.
  rewrite is_nan_false, FloatAxioms.leb_spec. unfold SFleb. intros Hn.
  now rewrite (SFcompare_refl _ Hn).
Qed.

(** Two numbers neither of which is below the other compare as equal. *)
Lemma not_ltb_leb (a b : float) :
  is_nan a = false -> is_nan b = false ->
  (a <? b)%float = false -> (b <? a)%float = false ->
  (a <=? b)%float = true /\ (b <=? a)%float = true.
Proof.
  rewrite !is_nan_false, !FloatAxioms.ltb_spec, !FloatAxioms.leb_spec. unfold SFltb, SFleb.
  intros Ha Hb. rewrite (SFcompare_antisym (Prim2SF a) (Prim2SF b)).
  destruct (SFcompare (Prim2SF a) (Prim2SF b)) as [[] |] eqn:Hc;
    cbn [option_map CompOpp]; try congruence; try (split; congruence).
  apply SFcompare_None in Hc. tauto.
Qed.

(** ** [Math.max], [Math.min] and the clamp *)

Lemma max_cases (a b : float) :
  is_nan a = false -> is_nan b = false ->
  (Math.max a b = a /\ (b <=? a)%float = true) \/
  (Math.max a b = b /\ (a <=? b)%float = true).
Proof.
  intros Ha Hb. unfold Math.max. rewrite Ha, Hb. cbn [orb].
  destruct (a <? b)%float eqn:Hab.
  { right. split; [reflexivity | now apply ltb_leb]. }
  destruct (b <? a)%float eqn:Hba.
  { left. split; [reflexivity | now apply ltb_leb]. }
  destruct (not_ltb_leb a b Ha Hb Hab Hba) as [H1 H2].
  destruct (get_sign a); [right | left]; split; auto.
Qed.

Lemma min_cases (a b : float) :
  is_nan a = false -> is_nan b = false ->
  (Math.min a b = a /\ (a <=? b)%float = true) \/
  (Math.min a b = b /\ (b <=? a)%float = true).
Proof.
  intros Ha Hb. unfold Math.min. rewrite Ha, Hb. cbn [orb].
  destruct (a <? b)%float eqn:Hab.
  { left. split; [reflexivity | now apply ltb_leb]. }
  destruct (b <? a)%float eqn:Hba.
  { right. split; [reflexivity | now apply ltb_leb]. }
  destruct (not_ltb_leb a b Ha Hb Hab Hba) as [H1 H2].
  destruct (get_sign a); [left | right]; split; auto.
Qed.

(** Clamping a number that is not [NaN] between two ordered bounds gives a
    number between the bounds. *)
Lemma clamp_between (lo hi v : float) :
  (lo <=? hi)%float = true -> is_nan v = false ->
  (lo <=? Math.max lo (Math.min hi v))%float = true /\
  (Math.max lo (Math.min hi v) <=? hi)%float = true.
Proof.
  intros Hlh Hv. destruct (leb_not_nan _ _ Hlh) as [Hlo Hhi].
  assert (Hm : is_nan (Math.min hi v) = false /\ (Math.min hi v <=? hi)%float = true).
  { destruct (min_cases hi v Hhi Hv) as [[-> _] | [-> Hle]].
    - split; [exact Hhi | now apply leb_refl].
    - split; [exact Hv | exact Hle]. }
  destruct Hm as [Hmn Hmh].
  destruct (max_cases lo (Math.min hi v) Hlo Hmn) as [[-> _] | [-> Hle]].
  - split; [now apply leb_refl | exact Hlh].
  - split; [exact Hle | exact Hmh].
Qed.

Lemma pitch_bounds_ordered : (pitch_min <=? pitch_max)%float = true.
Proof. reflexivity. Qed.

(** An angle within the bounds is a finite number. *)
Lemma pitch_in_range_bounded (x : float) :
  pitch_in_range x -> SF_is_bounded (Prim2SF x) = true.
Proof.
  intros [Hlo Hhi]. rewrite FloatAxioms.leb_spec in Hlo, Hhi.
  assert (Hmin : Prim2SF pitch_min = S754_finite true 5659390201622752 (-52))
    by (vm_compute; reflexivity).
  assert (Hmax : Prim2SF pitch_max = S754_finite false 5659390201622752 (-52))
    by (vm_compute; reflexivity).
  rewrite Hmin in Hlo. rewrite Hmax in Hhi.
  destruct (Prim2SF x) as [s | s | | s m e]; try reflexivity.
  - destruct s; [discriminate Hlo | discriminate Hhi].
  - discriminate Hlo.
Qed.

(** The angle before clamping is not [NaN]. *)
Lemma pitch_step_not_nan (x d : float) :
  pitch_in_range x -> is_nan d = false ->
  is_nan (x - d * sensitivity)%float = false.
Proof.
  intros Hx Hd. apply is_nan_false. apply is_nan_false in Hd.
  rewrite sub_spec, mul_spec.
  assert (Hs : Prim2SF sensitivity = S754_finite false 4611686018427388 (-61))
    by (vm_compute; reflexivity).
  rewrite Hs. apply SFsub_bounded_not_nan.
  - now apply pitch_in_range_bounded.
  - now apply SFmul_finite_not_nan.
Qed.

Section RotationFacts.
Context {PlayerData : Type} `{!Player.Row PlayerData}.
Implicit Types (w : World PlayerData).

(** C9. A mouse movement changes the rotation accumulator only while the
    pointer is locked on the document body.  The vertical angle stays within
    [-Math.PI / 2.5, Math.PI / 2.5] if it was there before (the movement of
    a DOM mouse event is never [NaN]); the horizontal angle is the plain
    difference [y - movementX * sensitivity], to which no bound is
    applied. *)
Theorem C9_mouse_rotation_gated_and_pitch_clamped (event : MouseEvent) w :
  is_nan (movementY event) = false ->
  pitch_in_range (THREE.x (playerRotationRef (refs w))) ->
  pitch_in_range (THREE.x (playerRotationRef (refs (handleMouseMove event w)))) /\
  (isDocumentBody (pointerLockElement (browser w)) = false ->
     handleMouseMove event w = w) /\
  (isDocumentBody (pointerLockElement (browser w)) = true ->
     THREE.y (playerRotationRef (refs (handleMouseMove event w)))
       = (THREE.y (playerRotationRef (refs w)) - movementX event * sensitivity)%float /\
     THREE.x (playerRotationRef (refs (handleMouseMove event w)))
       = Math.max pitch_min
           (Math.min pitch_max
              (THREE.x (playerRotationRef (refs w)) - movementY event * sensitivity)%float)).
Proof.
  intros Hd Hx. unfold handleMouseMove.
  destruct (isDocumentBody (pointerLockElement (browser w))); cbn.
  - split; [| split; [discriminate | intros _; split; reflexivity]].
    apply clamp_between.
    + exact pitch_bounds_ordered.
    + now apply pitch_step_not_nan.
  - split; [exact Hx | split; [reflexivity | discriminate]].
Qed.

End RotationFacts.

Lemma C9_mouse_rotation_gated_and_pitch_clamped_witness :
  is_nan (movementY Sample.sweep) = false /\
  pitch_in_range (THREE.x (playerRotationRef (refs Sample.online))) /\
  pitch_in_range
    (THREE.x (playerRotationRef (refs (handleMouseMove Sample.sweep Sample.online)))) /\
  (THREE.y (playerRotationRef (refs (handleMouseMove Sample.sweep Sample.online)))
     <? pitch_min)%float = true.
Proof.
  assert (Hr : pitch_in_range (THREE.x (playerRotationRef (refs Sample.online))))
    by (split; reflexivity).
  split; [reflexivity | split; [exact Hr | split; [| reflexivity]]].
  exact (proj1 (C9_mouse_rotation_gated_and_pitch_clamped
                  Sample.sweep Sample.online eq_refl Hr)).
Defined.

(** * Further properties of the client *)

(** ** Keyboard and mouse buttons *)

Section InputFacts.
Context {PlayerData : Type} `{!Player.Row PlayerData}.
Implicit Types (w : World PlayerData).
Import Classifier.

Lemma Action_eqb_eq (a b : Action.t) : Action.eqb a b = true <-> a = b.
Proof. destruct a, b; cbn; split; (reflexivity || discriminate). Qed.

Lemma getFlag_setFlag (a b : Action.t) (v : bool) (i : InputState) :
  getFlag a (setFlag b v i) = if Action.eqb a b then v else getFlag a i.
Proof. destruct a, b; reflexivity. Qed.

Lemma sequence_setFlag (b : Action.t) (v : bool) (i : InputState) :
  sequence (setFlag b v i) = sequence i.
Proof. destruct b; reflexivity. Qed.

Lemma setFlag_same (a : Action.t) (i : InputState) :
  setFlag a (getFlag a i) i = i.
Proof. destruct i, a; reflexivity. Qed.

Lemma setFlag_setFlag (a : Action.t) (u v : bool) (i : InputState) :
  setFlag a u (setFlag a v i) = setFlag a u i.
Proof. destruct a; reflexivity. Qed.

Lemma set_currentInputRef_same w : set_currentInputRef (currentInputRef (refs w)) w = w.
Proof. destruct w as [c wc a [i l h r] s b]. reflexivity. Qed.

Lemma keyMap_never_attack (code : string) : keyMap code <> Some Action.attack.
Proof.
  unfold keyMap.
  repeat match goal with |- context [String.eqb ?a ?b] => destruct (String.eqb a b) end;
    discriminate.
Qed.

(** X1. A key-down that is an auto-repeat, or whose code is not in the key
    table, changes nothing, and neither does a key-up with such a code. *)
Theorem X1_repeat_or_unmapped_key_is_ignored (event : Keyboard.Event) w :
  Keyboard.repeat event = true \/ keyMap (Keyboard.code event) = None ->
  handleKeyDown event w = w /\
  (keyMap (Keyboard.code event) = None -> handleKeyUp event w = w).
Proof.
  intros Hcase. split.
  - unfold handleKeyDown. destruct Hcase as [-> | Hk]; [reflexivity |].
    rewrite Hk. now destruct (Keyboard.repeat event).
  - intros Hk. unfold handleKeyUp. now rewrite Hk.
Qed.

(** X2. A first key-down of a mapped key raises exactly the flag the key
    table gives it, and the key-up lowers exactly that flag: every other
    flag keeps its value; a second key-down changes nothing more. *)
Theorem X2_key_sets_exactly_its_flag (event : Keyboard.Event) (action : Action.t) w :
  Keyboard.repeat event = false ->
  keyMap (Keyboard.code event) = Some action ->
  (forall a, getFlag a (currentInputRef (refs (handleKeyDown event w)))
             = if Action.eqb a action then true
               else getFlag a (currentInputRef (refs w))) /\
  (forall a, getFlag a (currentInputRef (refs (handleKeyUp event w)))
             = if Action.eqb a action then false
               else getFlag a (currentInputRef (refs w))) /\
  handleKeyDown event (handleKeyDown event w) = handleKeyDown event w.
Proof.
  intros Hr Hk.
  assert (Hdown : forall w' a,
            getFlag a (currentInputRef (refs (handleKeyDown event w')))
            = if Action.eqb a action then true
              else getFlag a (currentInputRef (refs w'))).
  { intros w' a. unfold handleKeyDown. rewrite Hr, Hk.
    destruct (getFlag action (currentInputRef (refs w'))) eqn:Hf; cbn.
    - destruct (Action.eqb a action) eqn:Ha; [| reflexivity].
      apply Action_eqb_eq in Ha. now subst a.
    - apply getFlag_setFlag. }
  split; [apply Hdown | split].
  - intros a. unfold handleKeyUp. rewrite Hk.
    destruct (getFlag action (currentInputRef (refs w))) eqn:Hf; cbn.
    + apply getFlag_setFlag.
    + destruct (Action.eqb a action) eqn:Ha; [| reflexivity].
      apply Action_eqb_eq in Ha. now subst a.
  - unfold handleKeyDown at 1. rewrite Hr, Hk.
    rewrite (Hdown w action).
    assert (Hrefl : Action.eqb action action = true) by now apply Action_eqb_eq.
    now rewrite Hrefl.
Qed.

(** X4. Pressing and releasing a mapped key whose flag was not set before
    the press brings the whole state back to what it was. *)
Theorem X4_press_then_release_restores_state
  (event : Keyboard.Event) (action : Action.t) w :
  Keyboard.repeat event = false ->
  keyMap (Keyboard.code event) = Some action ->
  getFlag action (currentInputRef (refs w)) = false ->
  handleKeyUp event (handleKeyDown event w) = w.
Proof.
  intros Hr Hk Hf. unfold handleKeyDown. rewrite Hr, Hk, Hf. cbn [negb].
  unfold handleKeyUp. rewrite Hk. cbn.
  rewrite getFlag_setFlag.
  assert (Hrefl : Action.eqb action action = true) by now apply Action_eqb_eq.
  rewrite Hrefl, setFlag_setFlag, <- Hf, setFlag_same.
  destruct w as [c wc a [i l h r] s b]. reflexivity.
Qed.

(** X5. Only the primary mouse button (button 0) acts: other buttons change
    nothing; with the primary button down the classifier answers "attack1"
    whatever keys are held, and once it is up the attack flag is false. *)
Theorem X5_primary_button_drives_attack (event : MouseEvent) w :
  (button event <> 0 ->
     handleMouseDown event w = w /\ handleMouseUp event w = w) /\
  (button event = 0 ->
     determineAnimation (currentInputRef (refs (handleMouseDown event w))) = "attack1" /\
     attack (currentInputRef (refs (handleMouseUp event w))) = false /\
     (forall a, a <> Action.attack ->
        getFlag a (currentInputRef (refs (handleMouseDown event w)))
          = getFlag a (currentInputRef (refs w)) /\
        getFlag a (currentInputRef (refs (handleMouseUp event w)))
          = getFlag a (currentInputRef (refs w)))).
Proof.
  unfold handleMouseDown, handleMouseUp. split.
  - intros Hb. destruct (Z.eqb_spec (button event) 0); [contradiction | now split].
  - intros ->. cbn.
    destruct (attack (currentInputRef (refs w))) eqn:Ha; cbn.
    + repeat split.
      * unfold determineAnimation. now rewrite Ha.
      * destruct a; try reflexivity. contradiction.
    + repeat split; try exact Ha.
      destruct a; try reflexivity. contradiction.
Qed.

End InputFacts.

Lemma X1_repeat_or_unmapped_key_is_ignored_witness :
  keyMap (Keyboard.code Sample.press_q) = None /\
  handleKeyDown Sample.press_q Sample.online = Sample.online /\
  handleKeyUp Sample.press_q Sample.online = Sample.online.
Proof.
  split; [reflexivity |].
  pose proof (X1_repeat_or_unmapped_key_is_ignored
                Sample.press_q Sample.online (or_intror eq_refl)) as [Hd Hu].
  split; [exact Hd | exact (Hu eq_refl)].
Defined.

Lemma X2_key_sets_exactly_its_flag_witness :
  Keyboard.repeat Sample.press_w = false /\
  keyMap (Keyboard.code Sample.press_w) = Some Action.forward /\
  forward (currentInputRef (refs (handleKeyDown Sample.press_w Sample.online))) = true.
Proof.
  split; [reflexivity | split; [reflexivity |]].
  exact (proj1 (X2_key_sets_exactly_its_flag
                  Sample.press_w Action.forward Sample.online eq_refl eq_refl)
               Action.forward).
Defined.

Lemma X4_press_then_release_restores_state_witness :
  getFlag Action.forward (currentInputRef (refs Sample.online)) = false /\
  handleKeyUp Sample.press_w (handleKeyDown Sample.press_w Sample.online) = Sample.online.
Proof.
  split; [reflexivity |].
  exact (X4_press_then_release_restores_state
           Sample.press_w Action.forward Sample.online eq_refl eq_refl eq_refl).
Defined.

(** ** Who writes what *)

Section FrameFacts.
Context {PlayerData : Type} `{!Player.Row PlayerData}.
Implicit Types (w : World PlayerData).
Import Classifier.

Lemma handleKeyDown_writes_input (e : Keyboard.Event) w :
  exists i, handleKeyDown e w = set_currentInputRef i w /\
            sequence i = sequence (currentInputRef (refs w)).
Proof.
  unfold handleKeyDown.
  destruct (Keyboard.repeat e);
    [exists (currentInputRef (refs w)); now rewrite set_currentInputRef_same |].
  destruct (keyMap (Keyboard.code e)) as [a |];
    [| exists (currentInputRef (refs w)); now rewrite set_currentInputRef_same].
  destruct (negb (getFlag a (currentInputRef (refs w)))).
  - eexists. split; [reflexivity | apply sequence_setFlag].
  - exists (currentInputRef (refs w)). now rewrite set_currentInputRef_same.
Qed.

Lemma handleKeyUp_writes_input (e : Keyboard.Event) w :
  exists i, handleKeyUp e w = set_currentInputRef i w /\
            sequence i = sequence (currentInputRef (refs w)).
Proof.
  unfold handleKeyUp.
  destruct (keyMap (Keyboard.code e)) as [a |];
    [| exists (currentInputRef (refs w)); now rewrite set_currentInputRef_same].
  destruct (getFlag a (currentInputRef (refs w))).
  - eexists. split; [reflexivity | apply sequence_setFlag].
  - exists (currentInputRef (refs w)). now rewrite set_currentInputRef_same.
Qed.

Lemma handleMouseDown_writes_input (e : MouseEvent) w :
  exists i, handleMouseDown e w = set_currentInputRef i w /\
            sequence i = sequence (currentInputRef (refs w)).
Proof.
  unfold handleMouseDown.
  destruct (button e =? 0);
    [| exists (currentInputRef (refs w)); now rewrite set_currentInputRef_same].
  destruct (negb (attack (currentInputRef (refs w)))).
  - eexists. split; [reflexivity | apply sequence_setFlag].
  - exists (currentInputRef (refs w)). now rewrite set_currentInputRef_same.
Qed.

Lemma handleMouseUp_writes_input (e : MouseEvent) w :
  exists i, handleMouseUp e w = set_currentInputRef i w /\
            sequence i = sequence (currentInputRef (refs w)).
Proof.
  unfold handleMouseUp.
  destruct (button e =? 0);
    [| exists (currentInputRef (refs w)); now rewrite set_currentInputRef_same].
  destruct (attack (currentInputRef (refs w))).
  - eexists. split; [reflexivity | apply sequence_setFlag].
  - exists (currentInputRef (refs w)). now rewrite set_currentInputRef_same.
Qed.

(** What one device event leaves alone. *)
Lemma handleInput_frame w (ev : InputEvent) :
  sequence (currentInputRef (refs (handleInput w ev)))
    = sequence (currentInputRef (refs w)) /\
  conn (handleInput w ev) = conn w /\
  window_conn (handleInput w ev) = window_conn w /\
  players (app (handleInput w ev)) = players (app w) /\
  localPlayer (app (handleInput w ev)) = localPlayer (app w) /\
  selectedSquares (handleInput w ev) = selectedSquares w /\
  remoteCalls (browser (handleInput w ev)) = remoteCalls (browser w) /\
  rafPending (browser (handleInput w ev)) = rafPending (browser w) /\
  animationFrameIdRef (refs (handleInput w ev)) = animationFrameIdRef (refs w).
Proof.
  destruct ev as [e | e | e | e | e |]; cbn [handleInput].
  - destruct (handleKeyDown_writes_input e w) as (i & -> & Hs). now rewrite <- Hs.
  - destruct (handleKeyUp_writes_input e w) as (i & -> & Hs). now rewrite <- Hs.
  - destruct (handleMouseDown_writes_input e w) as (i & -> & Hs). now rewrite <- Hs.
  - destruct (handleMouseUp_writes_input e w) as (i & -> & Hs). now rewrite <- Hs.
  - unfold handleMouseMove.
    destruct (isDocumentBody (pointerLockElement (browser w))); repeat split.
  - repeat split.
Qed.

(** X3. No sequence of keyboard, mouse and pointer-lock events advances the
    sequence counter, sends a reducer call, schedules or cancels a frame, or
    touches the connection handles, the player mirror, the local player or
    the selected cells. *)
Theorem X3_device_events_leave_session_state_alone (evs : list InputEvent) w :
  sequence (currentInputRef (refs (fold_left handleInput evs w)))
    = sequence (currentInputRef (refs w)) /\
  conn (fold_left handleInput evs w) = conn w /\
  window_conn (fold_left handleInput evs w) = window_conn w /\
  players (app (fold_left handleInput evs w)) = players (app w) /\
  localPlayer (app (fold_left handleInput evs w)) = localPlayer (app w) /\
  selectedSquares (fold_left handleInput evs w) = selectedSquares w /\
  remoteCalls (browser (fold_left handleInput evs w)) = remoteCalls (browser w) /\
  rafPending (browser (fold_left handleInput evs w)) = rafPending (browser w) /\
  animationFrameIdRef (refs (fold_left handleInput evs w))
    = animationFrameIdRef (refs w).
Proof.
  revert w. induction evs as [| ev evs IH]; intros w; cbn [fold_left].
  - repeat split.
  - destruct (IH (handleInput w ev)) as (H1 & H2 & H3 & H4 & H5 & H6 & H7 & H8 & H9).
    destruct (handleInput_frame w ev) as (G1 & G2 & G3 & G4 & G5 & G6 & G7 & G8 & G9).
    repeat split; congruence.
Qed.

Lemma set_sequence_twice (n m : Z) (i : InputState) :
  set_sequence n (set_sequence m i) = set_sequence n i.
Proof. reflexivity. Qed.

Lemma gameLoop_input (connected : bool) (identity : option Identity) w :
  exists n, currentInputRef (refs (gameLoop connected identity w))
            = set_sequence n (currentInputRef (refs w)).
Proof.
  unfold gameLoop.
  destruct (negb connected || isNull (conn w) || isNull identity).
  - exists (sequence (currentInputRef (refs w))).
    destruct (animationFrameIdRef (refs w)); cbn;
      now destruct (currentInputRef (refs w)).
  - eexists. reflexivity.
Qed.

Lemma ticks_input n (connected : bool) (identity : option Identity) w :
  exists m, currentInputRef (refs (ticks n connected identity w))
            = set_sequence m (currentInputRef (refs w)).
Proof.
  revert w. induction n as [| n IH]; intros w; cbn [ticks].
  - exists (sequence (currentInputRef (refs w))). now destruct (currentInputRef (refs w)).
  - destruct (IH (gameLoop connected identity w)) as [m ->].
    destruct (gameLoop_input connected identity w) as [k ->].
    exists m. apply set_sequence_twice.
Qed.

(** X6. Game-loop ticks never change an action flag, so the animation tag
    of the current snapshot is the same after any number of ticks. *)
Theorem X6_ticks_keep_flags_and_animation
  (n : nat) (connected : bool) (identity : option Identity) w :
  (forall a, getFlag a (currentInputRef (refs (ticks n connected identity w)))
             = getFlag a (currentInputRef (refs w))) /\
  determineAnimation (currentInputRef (refs (ticks n connected identity w)))
    = determineAnimation (currentInputRef (refs w)).
Proof.
  destruct (ticks_input n connected identity w) as [m ->].
  split; [intros a; now destruct a | reflexivity].
Qed.

End FrameFacts.

(** ** The frame loop under the browser and React *)

Section SchedulingFacts.
Context {PlayerData : Type} `{!Player.Row PlayerData}.
Implicit Types (w : World PlayerData).

Lemma cancel_only_frame (h : positive) :
  List.filter (fun h' => negb (Pos.eqb h h')) [h] = [].
Proof. cbn. now rewrite Pos.eqb_refl. Qed.

Lemma gameLoopEffect_keeps_ownership (connected : bool) w :
  loop_owns_its_frame w -> loop_owns_its_frame (gameLoopEffect connected w).
Proof.
  unfold loop_owns_its_frame, gameLoopEffect. intros Hown.
  destruct connected; cbn [andb]; [| exact Hown].
  destruct (animationFrameIdRef (refs w)) as [h |] eqn:Hh; cbn.
  - rewrite Hh. exact Hown.
  - now rewrite Hown.
Qed.

Lemma gameLoopCleanup_clears w :
  loop_owns_its_frame w ->
  rafPending (browser (gameLoopCleanup w)) = [] /\
  animationFrameIdRef (refs (gameLoopCleanup w)) = None.
Proof.
  unfold loop_owns_its_frame, gameLoopCleanup. intros Hown.
  destruct (animationFrameIdRef (refs w)) as [h |] eqn:Hh; cbn.
  - rewrite Hown. split; [apply cancel_only_frame | reflexivity].
  - now rewrite Hh.
Qed.

Lemma animationFrame_keeps_ownership (connected : bool) (identity : option Identity) w :
  loop_owns_its_frame w -> loop_owns_its_frame (animationFrame connected identity w).
Proof.
  unfold loop_owns_its_frame, animationFrame. intros Hown.
  destruct (animationFrameIdRef (refs w)) as [h |] eqn:Hh; rewrite Hown.
  - unfold gameLoop. cbn.
    destruct (negb connected || isNull (conn w) || isNull identity); cbn.
    + now rewrite Hh.
    + reflexivity.
  - now rewrite Hh.
Qed.

(** X7. If the only scheduled frame is the one [animationFrameIdRef] holds
    (or none is scheduled and the ref is null), this stays so through every
    sequence of effect runs, cleanups and fired frames: the loop never has
    two frames in flight and never loses track of one. *)
Theorem X7_loop_keeps_one_tracked_frame (evs : list LoopEvent) w :
  loop_owns_its_frame w ->
  loop_owns_its_frame (fold_left loopStep evs w) /\
  (length (rafPending (browser (fold_left loopStep evs w))) <= 1)%nat.
Proof.
  intros Hown.
  assert (Hinv : loop_owns_its_frame (fold_left loopStep evs w)).
  { revert w Hown. induction evs as [| ev evs IH]; intros w Hown; cbn [fold_left].
    - exact Hown.
    - apply IH. destruct ev as [c | | c i]; cbn [loopStep].
      + now apply gameLoopEffect_keeps_ownership.
      + destruct (gameLoopCleanup_clears w Hown) as [Hp Hr].
        unfold loop_owns_its_frame. now rewrite Hp, Hr.
      + now apply animationFrame_keeps_ownership. }
  split; [exact Hinv |].
  unfold loop_owns_its_frame in Hinv. rewrite Hinv.
  destruct (animationFrameIdRef (refs (fold_left loopStep evs w))); cbn; lia.
Qed.

(** X8. The cleanup of the game-loop effect can run twice with the effect
    of one run; after it no frame is scheduled and the ref is null (when
    the loop owned its frame), so a frame event finds nothing to run. *)
Theorem X8_cleanup_is_idempotent_and_final
  (connected : bool) (identity : option Identity) w :
  loop_owns_its_frame w ->
  gameLoopCleanup (gameLoopCleanup w) = gameLoopCleanup w /\
  rafPending (browser (gameLoopCleanup w)) = [] /\
  animationFrameIdRef (refs (gameLoopCleanup w)) = None /\
  animationFrame connected identity (gameLoopCleanup w) = gameLoopCleanup w /\
  gameLoopEffect false (gameLoopCleanup w) = gameLoopCleanup w.
Proof.
  intros Hown. destruct (gameLoopCleanup_clears w Hown) as [Hp Hr].
  split; [| split; [exact Hp | split; [exact Hr | split]]].
  - unfold gameLoopCleanup at 1. now rewrite Hr.
  - unfold animationFrame. now rewrite Hp.
  - reflexivity.
Qed.

Lemma loopStep_without_connection (ev : LoopEvent) w :
  conn w = None ->
  conn (loopStep w ev) = None /\
  currentInputRef (refs (loopStep w ev)) = currentInputRef (refs w).
Proof.
  intros Hc. destruct ev as [c | | c i]; cbn [loopStep].
  - unfold gameLoopEffect.
    destruct (c && isNull (animationFrameIdRef (refs w))); now split.
  - unfold gameLoopCleanup. destruct (animationFrameIdRef (refs w)); now split.
  - unfold animationFrame. destruct (rafPending (browser w)) as [| h rest]; [now split |].
    unfold gameLoop. cbn. rewrite Hc. cbn.
    rewrite orb_true_r. cbn.
    destruct (animationFrameIdRef (refs w)); now split.
Qed.

(** X9. While the module-level connection handle is null (as it is from
    [onDisconnect] on), nothing the frame loop does advances the sequence
    counter or changes the snapshot, whatever the closures of the scheduled
    callbacks still hold. *)
Theorem X9_no_connection_no_sequence_progress
  (reason : option string) (evs : list LoopEvent) w :
  (conn w = None ->
     currentInputRef (refs (fold_left loopStep evs w)) = currentInputRef (refs w)) /\
  currentInputRef (refs (fold_left loopStep evs (onDisconnect reason w)))
    = currentInputRef (refs w).
Proof.
  assert (Hgen : forall w', conn w' = None ->
            currentInputRef (refs (fold_left loopStep evs w'))
            = currentInputRef (refs w')).
  { induction evs as [| ev evs IH]; intros w' Hc; cbn [fold_left].
    - reflexivity.
    - destruct (loopStep_without_connection ev w' Hc) as [Hc' Hi].
      now rewrite (IH _ Hc'). }
  split; [apply Hgen |].
  now rewrite Hgen.
Qed.

End SchedulingFacts.

Lemma online_owns_its_frame : loop_owns_its_frame Sample.online.
Proof. reflexivity. Qed.

Lemma X7_loop_keeps_one_tracked_frame_witness :
  loop_owns_its_frame Sample.online /\
  loop_owns_its_frame
    (fold_left loopStep
       [frame_fires true Sample.me; cleanup_runs; effect_runs true;
        frame_fires true Sample.me]
       Sample.online).
Proof.
  split; [exact online_owns_its_frame |].
  exact (proj1 (X7_loop_keeps_one_tracked_frame
                  [frame_fires true Sample.me; cleanup_runs; effect_runs true;
                   frame_fires true Sample.me]
                  Sample.online online_owns_its_frame)).
Defined.

Lemma X8_cleanup_is_idempotent_and_final_witness :
  loop_owns_its_frame Sample.online /\
  rafPending (browser (gameLoopCleanup Sample.online)) = [].
Proof.
  split; [exact online_owns_its_frame |].
  apply (X8_cleanup_is_idempotent_and_final true Sample.me Sample.online).
  exact online_owns_its_frame.
Defined.

(** ** More on the player mirror *)

Section MapLaws.
Context {V : Type}.
Implicit Types (m : list (string * V)) (k : string) (v : V).

Lemma get_set k k' v m :
  JsMap.get k (JsMap.set k' v m) = if String.eqb k k' then Some v else JsMap.get k m.
Proof.
  induction m as [| [k0 v0] rest IH]; cbn [JsMap.set JsMap.get].
  - now destruct (String.eqb k k').
  - destruct (String.eqb_spec k' k0) as [<- | Hne]; cbn [JsMap.get].
    + now destruct (String.eqb k k').
    + destruct (String.eqb_spec k k0) as [-> | Hne'].
      * destruct (String.eqb_spec k0 k'); [congruence | reflexivity].
      * exact IH.
Qed.

Lemma get_delete k k' m :
  JsMap.get k (JsMap.delete k' m) = if String.eqb k k' then None else JsMap.get k m.
Proof.
  induction m as [| [k0 v0] rest IH]; cbn [JsMap.delete JsMap.get].
  - now destruct (String.eqb k k').
  - destruct (String.eqb_spec k' k0) as [<- | Hne]; cbn [JsMap.get].
    + rewrite IH. destruct (String.eqb_spec k k'); reflexivity.
    + rewrite IH. destruct (String.eqb_spec k k0) as [-> | Hne'].
      * destruct (String.eqb_spec k0 k'); [congruence | reflexivity].
      * reflexivity.
Qed.

Lemma keys_set k v m (k' : string) :
  In k' (map fst (JsMap.set k v m)) <-> k' = k \/ In k' (map fst m).
Proof.
  induction m as [| [k0 v0] rest IH]; cbn [JsMap.set map fst In].
  - intuition congruence.
  - destruct (String.eqb_spec k k0) as [<- | Hne]; cbn [map fst In].
    + intuition congruence.
    + rewrite IH. intuition congruence.
Qed.

Lemma keys_delete k m (k' : string) :
  In k' (map fst (JsMap.delete k m)) <-> k' <> k /\ In k' (map fst m).
Proof.
  induction m as [| [k0 v0] rest IH]; cbn [JsMap.delete map fst In].
  - tauto.
  - destruct (String.eqb_spec k k0) as [<- | Hne]; cbn [map fst In].
    + rewrite IH. intuition congruence.
    + rewrite IH. intuition congruence.
Qed.

Lemma NoDup_keys_set k v m :
  List.NoDup (map fst m) -> List.NoDup (map fst (JsMap.set k v m)).
Proof.
  induction m as [| [k0 v0] rest IH]; cbn [JsMap.set map fst]; intros Hnd.
  - constructor; [intros [] | constructor].
  - inversion Hnd as [| ? ? Hnotin Hrest]; subst.
    destruct (String.eqb_spec k k0) as [<- | Hne]; cbn [map fst].
    + now constructor.
    + constructor; [| now apply IH].
      rewrite keys_set. intros [Heq | Hin]; [congruence | contradiction].
Qed.

Lemma NoDup_keys_delete k m :
  List.NoDup (map fst m) -> List.NoDup (map fst (JsMap.delete k m)).
Proof.
  induction m as [| [k0 v0] rest IH]; cbn [JsMap.delete map fst]; intros Hnd.
  - constructor.
  - inversion Hnd as [| ? ? Hnotin Hrest]; subst.
    destruct (String.eqb_spec k k0) as [<- | Hne]; cbn [map fst].
    + now apply IH.
    + constructor; [| now apply IH].
      rewrite keys_delete. tauto.
Qed.

(** X10. Lookups in the player [Map] after a write: [set] binds its key to
    the new value and [delete] unbinds its key, and neither changes what any
    other key is bound to; the empty map binds nothing. *)
Theorem X10_lookup_after_set_and_delete k k' v m :
  JsMap.get k (JsMap.set k v m) = Some v /\
  JsMap.get k (JsMap.delete k m) = None /\
  (k <> k' -> JsMap.get k (JsMap.set k' v m) = JsMap.get k m) /\
  (k <> k' -> JsMap.get k (JsMap.delete k' m) = JsMap.get k m) /\
  JsMap.get k (JsMap.empty : list (string * V)) = None.
Proof.
  rewrite !get_set, !get_delete, String.eqb_refl.
  repeat split; intros Hne; now destruct (String.eqb_spec k k').
Qed.

End MapLaws.

Section MirrorInvariants.
Context {PlayerData : Type} `{!Player.Row PlayerData}.
Implicit Types (w : World PlayerData) (identity : option Identity).
Implicit Types (m : list (string * PlayerData)) (p : PlayerData).

Lemma mirror_wf_set p m : mirror_wf m -> mirror_wf (JsMap.set (playerKey p) p m).
Proof.
  intros [Hnd Hkeys]. split; [now apply NoDup_keys_set |].
  induction m as [| [k0 v0] rest IH]; cbn [JsMap.set].
  - constructor; [reflexivity | constructor].
  - inversion Hkeys as [| ? ? Hhd Htl]; subst.
    inversion Hnd as [| ? ? Hnotin Hrest]; subst.
    destruct (String.eqb (playerKey p) k0).
    + constructor; [reflexivity | exact Htl].
    + constructor; [exact Hhd | now apply IH].
Qed.

Lemma mirror_wf_delete (k : string) m : mirror_wf m -> mirror_wf (JsMap.delete k m).
Proof.
  intros [Hnd Hkeys]. split; [now apply NoDup_keys_delete |].
  clear Hnd. induction Hkeys as [| [k0 v0] rest Hhd Htl IH]; cbn [JsMap.delete].
  - constructor.
  - destruct (String.eqb k k0); [exact IH | now constructor].
Qed.

Lemma mirror_wf_empty : mirror_wf (JsMap.empty : list (string * PlayerData)).
Proof. split; constructor. Qed.

Lemma mirror_wf_initialLoad (rows : list PlayerData) : mirror_wf (initialLoad rows).
Proof.
  unfold initialLoad. generalize (@mirror_wf_empty).
  generalize (@JsMap.empty PlayerData).
  induction rows as [| p rows IH]; intros m Hm; cbn [fold_left].
  - exact Hm.
  - apply IH. now apply mirror_wf_set.
Qed.

(** What [onSubscriptionApplied] does to the mirror, with or without a
    connection. *)
Lemma players_onSubscriptionApplied identity w :
  players (app (onSubscriptionApplied identity w)) =
    if JsMap.size (players (app w)) =? 0 then
      match conn w with
      | Some c => initialLoad (db_player c)
      | None => players (app w)
      end
    else players (app w).
Proof.
  unfold onSubscriptionApplied. cbn.
  destruct (JsMap.size (players (app w)) =? 0); [| reflexivity].
  destruct (conn w) as [c |]; [| reflexivity]. cbn.
  pose proof (loadRow_fold identity (db_player c) JsMap.empty
                (log ["Subscription applied successfully."] w)) as Hfold.
  destruct (fold_left (loadRow identity) (db_player c)
              (JsMap.empty, log ["Subscription applied successfully."] w))
    as [currentPlayers w'].
  exact Hfold.
Qed.

(** X11. The mirror stays well formed, one entry per key and each entry
    under the hex string of its own identity, through every sequence of
    table notifications, through the initial load of [onSubscriptionApplied]
    (even when cached rows repeat an identity) and through [onDisconnect]. *)
Theorem X11_mirror_stays_keyed_by_identity
  identity (evs : list (TableEvent PlayerData)) (reason : option string) w :
  mirror_wf (players (app w)) ->
  mirror_wf (players (app (replay identity evs w))) /\
  mirror_wf (players (app (onSubscriptionApplied identity w))) /\
  mirror_wf (players (app (onDisconnect reason w))).
Proof.
  intros Hwf. split; [| split].
  - unfold replay. revert w Hwf.
    induction evs as [| ev evs IH]; intros w Hwf; cbn [fold_left]; [exact Hwf |].
    apply IH. destruct ev as [p | old p | p]; cbn [deliver].
    + rewrite players_onInsert. now apply mirror_wf_set.
    + rewrite players_onUpdate. now apply mirror_wf_set.
    + rewrite players_onDelete. now apply mirror_wf_delete.
  - rewrite players_onSubscriptionApplied.
    destruct (JsMap.size (players (app w)) =? 0); [| exact Hwf].
    destruct (conn w); [apply mirror_wf_initialLoad | exact Hwf].
  - apply mirror_wf_empty.
Qed.

Lemma size_set (k : string) (v : PlayerData) m :
  JsMap.size (JsMap.set k v m) =
    match JsMap.get k m with
    | Some _ => JsMap.size m
    | None => JsMap.size m + 1
    end.
Proof.
  unfold JsMap.size.
  induction m as [| [k0 v0] rest IH]; cbn [JsMap.set JsMap.get length].
  - reflexivity.
  - destruct (String.eqb k k0); cbn [length]; [reflexivity |].
    destruct (JsMap.get k rest); lia.
Qed.

(** X12. An insert or update for an identity the mirror already holds
    replaces the entry without growing the mirror; for an unknown identity
    it adds one entry; after either the row is found under its key; a
    delete for an unknown identity leaves the mirror as it is. *)
Theorem X12_notifications_for_known_and_unknown_identities
  identity (old p : PlayerData) w :
  JsMap.size (players (app (onInsert identity p w)))
    = JsMap.size (players (app (onUpdate identity old p w))) /\
  JsMap.size (players (app (onUpdate identity old p w)))
    = (match JsMap.get (playerKey p) (players (app w)) with
       | Some _ => JsMap.size (players (app w))
       | None => JsMap.size (players (app w)) + 1
       end) /\
  JsMap.size (players (app (onInsert identity p w)))
    = (match JsMap.get (playerKey p) (players (app w)) with
       | Some _ => JsMap.size (players (app w))
       | None => JsMap.size (players (app w)) + 1
       end) /\
  JsMap.get (playerKey p) (players (app (onInsert identity p w))) = Some p /\
  JsMap.get (playerKey p) (players (app (onUpdate identity old p w))) = Some p /\
  (forall k, k <> playerKey p ->
     JsMap.get k (players (app (onInsert identity p w)))
       = JsMap.get k (players (app w)) /\
     JsMap.get k (players (app (onUpdate identity old p w)))
       = JsMap.get k (players (app w))) /\
  (JsMap.get (playerKey p) (players (app w)) = None ->
     players (app (onDelete identity p w)) = players (app w)).
Proof.
  rewrite players_onInsert, players_onUpdate, players_onDelete.
  split; [reflexivity | split; [apply size_set | split; [apply size_set |]]].
  split; [| split; [| split]].
  - rewrite get_set. now rewrite String.eqb_refl.
  - rewrite get_set. now rewrite String.eqb_refl.
  - intros k Hne. rewrite get_set.
    destruct (String.eqb_spec k (playerKey p)); [contradiction | now split].
  - apply delete_absent.
Qed.

End MirrorInvariants.

Lemma online_mirror_wf : mirror_wf (players (app Sample.online)).
Proof.
  split.
  - constructor; [intros [] | constructor].
  - constructor; [reflexivity | constructor].
Qed.

Lemma X11_mirror_stays_keyed_by_identity_witness :
  mirror_wf (players (app Sample.online)) /\
  mirror_wf (players (app (replay Sample.me
                             [Insert Sample.bob;
                              Update Sample.alice Sample.alice_hurt;
                              Delete Sample.bob]
                             Sample.online))).
Proof.
  split; [exact online_mirror_wf |].
  exact (proj1 (X11_mirror_stays_keyed_by_identity
                  Sample.me
                  [Insert Sample.bob; Update Sample.alice Sample.alice_hurt;
                   Delete Sample.bob]
                  None Sample.online online_mirror_wf)).
Defined.

Section SessionFacts.
Context {PlayerData : Type} `{!Player.Row PlayerData}.
Implicit Types (w : World PlayerData) (identity : option Identity).
Implicit Types (m : list (string * PlayerData)) (p : PlayerData).

Lemma loadRow_fold_world identity (rows : list PlayerData) m w :
  exists lp, snd (fold_left (loadRow identity) rows (m, w)) = setLocalPlayer lp w.
Proof.
  revert m w. induction rows as [| p rows IH]; intros m w; cbn [fold_left].
  - exists (localPlayer (app w)). cbn. now destruct w as [c wc [] r s b].
  - cbn [loadRow]. destruct (isLocal identity p).
    + destruct (IH (JsMap.set (playerKey p) p m) (setLocalPlayer (Some p) w)) as [lp ->].
      now exists lp.
    + apply IH.
Qed.

Lemma loadRow_fold_no_identity (rows : list PlayerData) m w :
  snd (fold_left (loadRow None) rows (m, w)) = w.
Proof.
  revert m w. induction rows as [| p rows IH]; intros m w; cbn [fold_left].
  - reflexivity.
  - cbn [loadRow isLocal]. apply IH.
Qed.

Lemma deliver_no_identity w (ev : TableEvent PlayerData) :
  localPlayer (app (deliver None w ev)) = localPlayer (app w) /\
  statusMessage (app (deliver None w ev)) = statusMessage (app w).
Proof. destruct ev; split; reflexivity. Qed.

(** X14. Callbacks that closed over a null identity never set or clear the
    local player and never write the status line, whatever rows they are
    given: neither the table callbacks nor the initial load. *)
Theorem X14_null_identity_never_sets_local_player
  (evs : list (TableEvent PlayerData)) w :
  localPlayer (app (replay None evs w)) = localPlayer (app w) /\
  statusMessage (app (replay None evs w)) = statusMessage (app w) /\
  localPlayer (app (onSubscriptionApplied None w)) = localPlayer (app w) /\
  statusMessage (app (onSubscriptionApplied None w)) = statusMessage (app w).
Proof.
  assert (Hreplay : localPlayer (app (replay None evs w)) = localPlayer (app w) /\
                    statusMessage (app (replay None evs w)) = statusMessage (app w)).
  { unfold replay. revert w. induction evs as [| ev evs IH]; intros w; cbn [fold_left].
    - split; reflexivity.
    - destruct (IH (deliver None w ev)) as [-> ->]. apply deliver_no_identity. }
  destruct Hreplay as [H1 H2]. split; [exact H1 | split; [exact H2 |]].
  unfold onSubscriptionApplied. cbn.
  destruct (JsMap.size (players (app w)) =? 0); [| split; reflexivity].
  destruct (conn w) as [c |]; [| split; reflexivity]. cbn.
  pose proof (loadRow_fold_no_identity (db_player c) JsMap.empty
                (log ["Subscription applied successfully."] w)) as Hfold.
  destruct (fold_left (loadRow None) (db_player c)
              (JsMap.empty, log ["Subscription applied successfully."] w))
    as [currentPlayers w'].
  cbn in Hfold. subst w'. split; reflexivity.
Qed.

Lemma deliver_frame (held : option Identity) w (ev : TableEvent PlayerData) :
  conn (deliver held w ev) = conn w /\
  window_conn (deliver held w ev) = window_conn w /\
  refs (deliver held w ev) = refs w /\
  selectedSquares (deliver held w ev) = selectedSquares w /\
  remoteCalls (browser (deliver held w ev)) = remoteCalls (browser w) /\
  rafPending (browser (deliver held w ev)) = rafPending (browser w) /\
  connected (app (deliver held w ev)) = connected (app w) /\
  identity (app (deliver held w ev)) = identity (app w).
Proof.
  destruct ev as [p | old p | p]; cbn [deliver].
  - unfold onInsert. destruct (isLocal held p); repeat split.
  - unfold onUpdate. destruct (isLocal held p); repeat split.
  - unfold onDelete. destruct (isLocal held p); repeat split.
Qed.

(** [onSubscriptionApplied] writes one console line and, at most, the mirror
    and the local player. *)
Lemma onSubscriptionApplied_shape (held : option Identity) w :
  exists f lp,
    onSubscriptionApplied held w
    = setPlayers f (setLocalPlayer lp (log ["Subscription applied successfully."] w)).
Proof.
  assert (Hid : forall w' : World PlayerData,
            w' = setPlayers (fun prev => prev) (setLocalPlayer (localPlayer (app w')) w')).
  { intros w'. now destruct w' as [c wc [] r s b]. }
  unfold onSubscriptionApplied. cbn zeta.
  destruct (JsMap.size (players (app (log ["Subscription applied successfully."] w))) =? 0);
    [| eexists _, _; apply Hid].
  destruct (conn (log ["Subscription applied successfully."] w)) as [c |];
    [| eexists _, _; apply Hid].
  destruct (loadRow_fold_world held (db_player c) JsMap.empty
              (log ["Subscription applied successfully."] w)) as [lp Hw'].
  destruct (fold_left (loadRow held) (db_player c)
              (JsMap.empty, log ["Subscription applied successfully."] w))
    as [currentPlayers w'].
  cbn in Hw'. subst w'. eexists _, _. reflexivity.
Qed.

(** X17. Table notifications and the initial load only write the mirror, the
    local player, the status line and the console: they leave the
    connection handles, the connected flag and identity, every ref (input
    snapshot, frame handle, rotation), the selected cells and the frame
    queue alone, and they send no reducer call. *)
Theorem X17_table_callbacks_only_write_the_mirror
  (held : option Identity) (evs : list (TableEvent PlayerData)) w :
  (conn (replay held evs w) = conn w /\
   window_conn (replay held evs w) = window_conn w /\
   refs (replay held evs w) = refs w /\
   selectedSquares (replay held evs w) = selectedSquares w /\
   remoteCalls (browser (replay held evs w)) = remoteCalls (browser w) /\
   rafPending (browser (replay held evs w)) = rafPending (browser w) /\
   connected (app (replay held evs w)) = connected (app w) /\
   identity (app (replay held evs w)) = identity (app w)) /\
  (conn (onSubscriptionApplied held w) = conn w /\
   window_conn (onSubscriptionApplied held w) = window_conn w /\
   refs (onSubscriptionApplied held w) = refs w /\
   selectedSquares (onSubscriptionApplied held w) = selectedSquares w /\
   remoteCalls (browser (onSubscriptionApplied held w)) = remoteCalls (browser w) /\
   rafPending (browser (onSubscriptionApplied held w)) = rafPending (browser w) /\
   connected (app (onSubscriptionApplied held w)) = connected (app w) /\
   identity (app (onSubscriptionApplied held w)) = identity (app w)).
Proof.
  split.
  - unfold replay. revert w. induction evs as [| ev evs IH]; intros w; cbn [fold_left].
    + repeat split.
    + destruct (IH (deliver held w ev)) as (H1 & H2 & H3 & H4 & H5 & H6 & H7 & H8).
      destruct (deliver_frame held w ev) as (G1 & G2 & G3 & G4 & G5 & G6 & G7 & G8).
      repeat split; congruence.
  - destruct (onSubscriptionApplied_shape held w) as (f & lp & ->). repeat split.
Qed.

(** The entry the initial load leaves under a key is the last cached row
    with that key. *)
Lemma get_initialLoad (k : string) (rows : list PlayerData) :
  JsMap.get k (initialLoad rows)
  = List.find (fun p => String.eqb k (playerKey p)) (rev rows).
Proof.
  unfold initialLoad.
  induction rows as [| p rows IH] using rev_ind.
  - reflexivity.
  - rewrite fold_left_app, rev_unit. cbn [fold_left List.find].
    rewrite get_set. destruct (String.eqb k (playerKey p)); [reflexivity | exact IH].
Qed.

(** X15. Disconnecting, connecting again and receiving [onApplied] leaves a
    mirror built from the new connection's cached rows alone, whatever the
    mirror held in the previous session; when several cached rows carry the
    same identity the last one is the entry. *)
Theorem X15_reconnect_rebuilds_mirror_from_cache
  (held : option Identity) (reason : option string)
  (connection : DbConnection PlayerData) (id : Identity) (token : string) w :
  players (app (onSubscriptionApplied held
                  (onConnect connection id token (onDisconnect reason w))))
    = initialLoad (db_player connection) /\
  (forall k,
     JsMap.get k (players (app (onSubscriptionApplied held
                                  (onConnect connection id token
                                     (onDisconnect reason w)))))
     = List.find (fun p => String.eqb k (playerKey p)) (rev (db_player connection))).
Proof.
  assert (Hload : players (app (onSubscriptionApplied held
                     (onConnect connection id token (onDisconnect reason w))))
                  = initialLoad (db_player connection)).
  { rewrite players_onSubscriptionApplied. reflexivity. }
  split; [exact Hload |].
  intros k. rewrite Hload. apply get_initialLoad.
Qed.


End SessionFacts.

(** ** The grid-cell mirror *)

Section GridFacts.
Context {PlayerData : Type} `{!Player.Row PlayerData}.
Implicit Types (w : World PlayerData).

(** X18. A click on a grid cell never changes the selected set locally, nor
    the application state or the refs, so the selection only changes when
    the server's notification arrives.  With a connection the click sends
    exactly one [toggleGridSquare] call for the clicked key, unless the call
    throws: then nothing is sent and the error is written to the console
    after the line that announces the toggle. *)
Theorem X18_click_never_selects_and_sends_at_most_one_toggle (key : string) w :
  selectedSquares (handleClick key w) = selectedSquares w /\
  app (handleClick key w) = app w /\
  refs (handleClick key w) = refs w /\
  (forall c, window_conn w = Some c ->
     match toggleGridSquare_throws c key with
     | None =>
         remoteCalls (browser (handleClick key w))
           = (remoteCalls (browser w) ++ [toggleGridSquare key])%list /\
         console (browser (handleClick key w))
           = (console (browser w) ++ [console_log ["Toggling grid square:"; key]])%list
     | Some thrown =>
         remoteCalls (browser (handleClick key w)) = remoteCalls (browser w) /\
         console (browser (handleClick key w))
           = (console (browser w)
              ++ [console_log ["Toggling grid square:"; key];
                  console_error ["Error toggling grid square:"; thrown]])%list
     end).
Proof.
  unfold handleClick. destruct (window_conn w) as [c |].
  - destruct (toggleGridSquare_throws c key) as [thrown |] eqn:Ht.
    + repeat split. intros c' [= <-]. rewrite Ht. cbn.
      split; [reflexivity | now rewrite <- app_assoc].
    + repeat split. intros c' [= <-]. rewrite Ht. now split.
  - repeat split. intros c' Hc. discriminate Hc.
Qed.

Lemma selected_gridDeliver w (ev : GridEvent) (k : string) :
  k ∈ selectedSquares (gridDeliver w ev) <->
  match ev with
  | GridInsert sq =>
      (k = GridSquare.key sq /\ GridSquare.selected sq = true) \/ k ∈ selectedSquares w
  | GridUpdate _ sq =>
      (k = GridSquare.key sq /\ GridSquare.selected sq = true) \/
      (k <> GridSquare.key sq /\ k ∈ selectedSquares w)
  | GridDelete sq => k <> GridSquare.key sq /\ k ∈ selectedSquares w
  end.
Proof.
  destruct ev as [sq | old sq | sq]; cbn [gridDeliver].
  - unfold gridOnInsert. destruct (GridSquare.selected sq); cbn.
    + rewrite elem_of_union, elem_of_singleton. tauto.
    + intuition discriminate.
  - unfold gridOnUpdate. cbn. destruct (GridSquare.selected sq).
    + rewrite elem_of_union, elem_of_singleton.
      destruct (decide (k = GridSquare.key sq)); tauto.
    + rewrite elem_of_difference, elem_of_singleton. intuition discriminate.
  - unfold gridOnDelete. cbn. rewrite elem_of_difference, elem_of_singleton. tauto.
Qed.

Lemma gridDeliver_tracks w (t : gmap string GridSquare.Data) (ev : GridEvent) :
  selectionTracks (selectedSquares w) t ->
  match ev with GridInsert sq => t !! GridSquare.key sq = None | _ => True end ->
  selectionTracks (selectedSquares (gridDeliver w ev)) (gridTableStep t ev).
Proof.
  intros Htr Hfresh k. rewrite selected_gridDeliver.
  destruct ev as [sq | old sq | sq]; cbn [gridTableStep].
  - destruct (decide (k = GridSquare.key sq)) as [-> | Hne].
    + rewrite lookup_insert_eq. split.
      * intros [[_ Hs] | Hin]; [now exists sq |].
        apply Htr in Hin as (row & Hrow & _). congruence.
      * intros (row & [= <-] & Hs). now left.
    + rewrite lookup_insert_ne by congruence. rewrite <- (Htr k). tauto.
  - destruct (decide (k = GridSquare.key sq)) as [-> | Hne].
    + rewrite lookup_insert_eq. split.
      * intros [[_ Hs] | [Hne _]]; [now exists sq | contradiction].
      * intros (row & [= <-] & Hs). now left.
    + rewrite lookup_insert_ne by congruence. rewrite <- (Htr k). tauto.
  - destruct (decide (k = GridSquare.key sq)) as [-> | Hne].
    + rewrite lookup_delete_eq. split; [tauto |].
      intros (row & Hrow & _). discriminate Hrow.
    + rewrite lookup_delete_ne by congruence. rewrite <- (Htr k). tauto.
Qed.

(** X19. If the selected set holds exactly the keys of the selected rows of
    the table, it still does after any sequence of insert, update and delete
    notifications in which every insert is for a key the table did not
    hold. *)
Theorem X19_selection_tracks_the_table
  (evs : list GridEvent) (t : gmap string GridSquare.Data) w :
  selectionTracks (selectedSquares w) t ->
  insertsAreFresh t evs ->
  selectionTracks (selectedSquares (fold_left gridDeliver evs w))
                  (fold_left gridTableStep evs t).
Proof.
  revert t w. induction evs as [| ev evs IH]; intros t w Htr Hfresh; cbn [fold_left].
  - exact Htr.
  - destruct Hfresh as [Hev Hrest]. apply IH; [| exact Hrest].
    now apply gridDeliver_tracks.
Qed.

Lemma initialSelected_spec (rows : list GridSquare.Data) (acc : gset string) (k : string) :
  k ∈ fold_left (fun acc square =>
                   if GridSquare.selected square
                   then {[GridSquare.key square]} ∪ acc else acc) rows acc
  <-> k ∈ acc \/
      exists sq, In sq rows /\ GridSquare.key sq = k /\ GridSquare.selected sq = true.
Proof.
  revert acc. induction rows as [| sq rows IH]; intros acc; cbn [fold_left In].
  - split; [tauto | intros [H0 | (sq & [] & _)]; exact H0].
  - rewrite IH. destruct (GridSquare.selected sq) eqn:Hs.
    + rewrite elem_of_union, elem_of_singleton. split.
      * intros [[-> | Hacc] | (sq' & Hin & Hk & Hsel)]; eauto 8.
      * intros [Hacc | (sq' & [<- | Hin] & Hk & Hsel)]; eauto 8.
    + split.
      * intros [Hacc | (sq' & Hin & Hk & Hsel)]; eauto 8.
      * intros [Hacc | (sq' & [<- | Hin] & Hk & Hsel)]; eauto 8. congruence.
Qed.

(** X20. When the grid subscription is applied on a live connection, the
    selected set becomes exactly the keys of the cached rows that are
    selected, whatever it held before (unlike the player mirror, it is
    replaced even when it is not empty); without a connection it is left as
    it is. *)
Theorem X20_grid_applied_replaces_selection w :
  (forall c, window_conn w = Some c ->
     forall k, k ∈ selectedSquares (gridOnApplied w) <->
       exists sq, In sq (db_gridSquare c) /\ GridSquare.key sq = k /\
                  GridSquare.selected sq = true) /\
  (window_conn w = None -> selectedSquares (gridOnApplied w) = selectedSquares w).
Proof.
  unfold gridOnApplied. cbn. split.
  - intros c Hc k. rewrite Hc. cbn. rewrite initialSelected_spec, elem_of_empty. tauto.
  - intros Hc. now rewrite Hc.
Qed.

End GridFacts.

Section LocalGridFacts.

Lemma elem_of_handleClickLocal (key : string) (s : gset string) (k : string) :
  k ∈ GroundGrid.handleClickLocal key s <->
  (k = key /\ key ∉ s) \/ (k <> key /\ k ∈ s).
Proof.
  unfold GroundGrid.handleClickLocal. cbn zeta.
  destruct (decide (k = key)) as [-> | Hne].
  - case_bool_decide as Hin;
      rewrite ?elem_of_difference, ?elem_of_union, elem_of_singleton; tauto.
  - case_bool_decide as Hin;
      rewrite ?elem_of_difference, ?elem_of_union, elem_of_singleton; tauto.
Qed.

Lemma local_click_membership (key : string) (s : gset string) :
  (key ∈ GroundGrid.handleClickLocal key s <-> key ∉ s) /\
  (forall k, k <> key -> (k ∈ GroundGrid.handleClickLocal key s <-> k ∈ s)).
Proof.
  split.
  - rewrite elem_of_handleClickLocal. tauto.
  - intros k Hne. rewrite elem_of_handleClickLocal. tauto.
Qed.

(** X21. In the locally selecting grid a click flips the membership of the
    clicked key and of no other key, and a second click on the same key
    restores the set. *)
Theorem X21_local_click_toggles (key : string) (s : gset string) :
  (key ∈ GroundGrid.handleClickLocal key s <-> key ∉ s) /\
  (forall k, k <> key -> (k ∈ GroundGrid.handleClickLocal key s <-> k ∈ s)) /\
  GroundGrid.handleClickLocal key (GroundGrid.handleClickLocal key s) = s.
Proof.
  split; [| split].
  - rewrite elem_of_handleClickLocal. tauto.
  - intros k Hne. rewrite elem_of_handleClickLocal. tauto.
  - apply set_eq. intros k. rewrite !elem_of_handleClickLocal.
    destruct (decide (k = key)) as [-> | Hne], (decide (key ∈ s)); tauto.
Qed.

Lemma find_key_some (rows : list GridSquare.Data) (k : string) (row : GridSquare.Data) :
  List.find (fun r => String.eqb (GridSquare.key r) k) rows = Some row ->
  GridSquare.key row = k /\ In row rows.
Proof.
  intros Hf. apply List.find_some in Hf as [Hin Hk].
  apply String.eqb_eq in Hk. now split.
Qed.

(** X23. [key.find] returns a cached row that carries the key asked for, and
    [undefined] exactly when no cached row carries it; the first such row in
    iteration order wins, and when the cached keys are pairwise distinct
    every cached row is found under its own key. *)
Theorem X23_find_returns_the_row_with_the_key (h : GridSquareTable.Handle) (k : string) :
  (forall row, GridSquareTable.find h k = Some row ->
     GridSquare.key row = k /\ In row (GridSquareTable.iter h)) /\
  (GridSquareTable.find h k = None <->
     forall row, In row (GridSquareTable.iter h) -> GridSquare.key row <> k) /\
  (List.NoDup (map GridSquare.key (GridSquareTable.iter h)) ->
     forall row, In row (GridSquareTable.iter h) ->
       GridSquareTable.find h (GridSquare.key row) = Some row) /\
  GridSquareTable.count h = Z.of_nat (length (GridSquareTable.iter h)).
Proof.
  unfold GridSquareTable.find, GridSquareTable.count, GridSquareTable.iter.
  split; [intros row; apply find_key_some |].
  split; [| split; [| reflexivity]].
  - split.
    + intros Hnone row Hin Hk.
      pose proof (List.find_none _ _ Hnone row Hin) as Hb. cbn in Hb.
      apply String.eqb_neq in Hb. contradiction.
    + intros Hall.
      destruct (List.find _ (GridSquareTable.tableCache h)) as [row |] eqn:Hf;
        [| reflexivity].
      apply find_key_some in Hf as [Hk Hin]. now destruct (Hall row Hin).
  - generalize (GridSquareTable.tableCache h). intros rows.
    induction rows as [| r rows IH]; intros Hnd row Hin; [destruct Hin |].
    cbn [map] in Hnd. inversion Hnd as [| ? ? Hnotin Hrest]; subst.
    cbn [List.find]. destruct Hin as [-> | Hin].
    + now rewrite String.eqb_refl.
    + destruct (String.eqb_spec (GridSquare.key r) (GridSquare.key row)) as [Heq | Hne].
      * exfalso. apply Hnotin. rewrite Heq. now apply in_map.
      * now apply IH.
Qed.

End LocalGridFacts.

(** ** The ground grid *)

Section GridGeometry.

Lemma digits_have_no_dash (d : Decimal.uint) (s1 s2 : string) :
  DecimalString.NilEmpty.string_of_uint d <> s1 +:+ "-" +:+ s2.
Proof.
  revert s1. induction d; intros s1 Heq; destruct s1 as [| a s1];
    cbn in Heq; try discriminate Heq;
    injection Heq as _ Heq; now apply IHd in Heq.
Qed.

Lemma js_toString_inj (n m : nat) : js_toString n = js_toString m -> n = m.
Proof.
  unfold js_toString. intros Heq.
  assert (Hu : Some (Nat.to_uint n) = Some (Nat.to_uint m)).
  { rewrite <- !DecimalString.NilEmpty.usu. now rewrite Heq. }
  injection Hu as Hu.
  rewrite <- (DecimalNat.Unsigned.of_to n), <- (DecimalNat.Unsigned.of_to m).
  now rewrite Hu.
Qed.

(** Two texts without a dash, each followed by a dash and a rest, are equal
    only if the parts before the dash and the rests are. *)
Lemma split_at_dash (a a' b b' : string) :
  (forall s1 s2, a <> s1 +:+ "-" +:+ s2) ->
  (forall s1 s2, a' <> s1 +:+ "-" +:+ s2) ->
  a +:+ "-" +:+ b = a' +:+ "-" +:+ b' -> a = a' /\ b = b'.
Proof.
  revert a'. induction a as [| c a IH]; intros a' Ha Ha' Heq.
  - destruct a' as [| c' a']; cbn in Heq.
    + injection Heq as Heq. now split.
    + injection Heq as Hc Heq. subst c'.
      exfalso. apply (Ha' "" a'). reflexivity.
  - destruct a' as [| c' a']; cbn in Heq.
    + injection Heq as Hc Heq. subst c.
      exfalso. apply (Ha "" a). reflexivity.
    + injection Heq as Hc Heq. subst c'.
      destruct (IH a') as [-> ->]; [| | exact Heq | now split].
      * intros s1 s2 Hs. apply (Ha (String c s1) s2). cbn. now rewrite Hs.
      * intros s1 s2 Hs. apply (Ha' (String c s1) s2). cbn. now rewrite Hs.
Qed.

Lemma square_key_inj (p p' : GroundGrid.Props) (r c r' c' : nat) :
  GroundGrid.key (GroundGrid.squareAt p r c)
  = GroundGrid.key (GroundGrid.squareAt p' r' c') ->
  r = r' /\ c = c'.
Proof.
  cbn. intros Heq. injection Heq as Heq.
  apply split_at_dash in Heq as [Hr Hc];
    try (intros s1 s2; apply digits_have_no_dash).
  split; now apply js_toString_inj.
Qed.


Lemma length_rows {A : Type} (g : nat -> list A) (n : nat) (l : list nat) :
  (forall r, length (g r) = n) -> length (flat_map g l) = (length l * n)%nat.
Proof.
  intros Hg. induction l as [| r l IH]; cbn [flat_map length]; [reflexivity |].
  rewrite length_app, Hg, IH. lia.
Qed.

Lemma nth_error_rows {A : Type} (g : nat -> list A) (n count first r c : nat) :
  (forall r, length (g r) = n) -> (r < count)%nat -> (c < n)%nat ->
  nth_error (flat_map g (seq first count)) (r * n + c) = nth_error (g (first + r)%nat) c.
Proof.
  intros Hg. revert first r.
  induction count as [| count IH]; intros first r Hr Hc; [lia |].
  cbn [seq flat_map]. destruct r as [| r].
  - rewrite Nat.add_0_r. cbn [Nat.mul Nat.add].
    apply nth_error_app1. now rewrite Hg.
  - rewrite nth_error_app2 by (rewrite Hg; lia).
    rewrite Hg. replace (S r * n + c - n)%nat with (r * n + c)%nat by lia.
    rewrite IH by lia. f_equal. f_equal. lia.
Qed.

Lemma nth_error_map_seq {A : Type} (f : nat -> A) (n c : nat) :
  (c < n)%nat -> nth_error (map f (seq 0 n)) c = Some (f c).
Proof.
  intros Hc. apply map_nth_error.
  rewrite (nth_error_nth' _ 0%nat) by now rewrite length_seq.
  now rewrite seq_nth.
Qed.

(** X22. The grid has [rows * columns] squares, pushed row by row: the
    square of row [r] and column [c] is at index [r * columns + c]. *)
Theorem X22_squares_enumerate_the_grid_row_by_row (p : GroundGrid.Props) :
  length (GroundGrid.squares p) = (GroundGrid.rows p * GroundGrid.columns p)%nat /\
  (forall r c, (r < GroundGrid.rows p)%nat -> (c < GroundGrid.columns p)%nat ->
     nth_error (GroundGrid.squares p) (r * GroundGrid.columns p + c)
     = Some (GroundGrid.squareAt p r c)).
Proof.
  unfold GroundGrid.squares. split.
  - rewrite (length_rows _ (GroundGrid.columns p)), length_seq; [reflexivity |].
    intros r. now rewrite length_map, length_seq.
  - intros r c Hr Hc.
    rewrite (nth_error_rows _ (GroundGrid.columns p)); try assumption.
    + now apply nth_error_map_seq.
    + intros r'. now rewrite length_map, length_seq.
Qed.

Lemma keys_of_row_NoDup (p : GroundGrid.Props) (r : nat) (cols : list nat) :
  List.NoDup cols ->
  List.NoDup (map (fun c => GroundGrid.key (GroundGrid.squareAt p r c)) cols).
Proof.
  induction 1 as [| c cols Hnotin Hnd IH]; cbn [map]; constructor; [| exact IH].
  intros Hin. apply in_map_iff in Hin as (c' & Hk & Hin').
  apply square_key_inj in Hk as [_ ->]. contradiction.
Qed.

Lemma keys_of_rows_NoDup (p : GroundGrid.Props) (rws cols : list nat) :
  List.NoDup rws -> List.NoDup cols ->
  List.NoDup
    (map GroundGrid.key
       (flat_map (fun row => map (fun col => GroundGrid.squareAt p row col) cols) rws)).
Proof.
  intros Hr Hc. induction Hr as [| r rws Hnotin Hnd IH]; cbn [flat_map map].
  - constructor.
  - rewrite map_app, map_map. apply List.NoDup_app.
    + now apply keys_of_row_NoDup.
    + exact IH.
    + intros k Hin1 Hin2.
      apply in_map_iff in Hin1 as (c & Hk1 & _).
      apply in_map_iff in Hin2 as (sq & Hk2 & Hsq).
      apply in_flat_map in Hsq as (r' & Hr' & Hsq).
      apply in_map_iff in Hsq as (c' & <- & _).
      rewrite <- Hk2 in Hk1. apply square_key_inj in Hk1 as [-> _]. contradiction.
Qed.

(** X24. No two squares of the grid share a key, so the key given to a
    mesh, looked up in the selected set and sent with a toggle designates
    one cell. *)
Theorem X24_square_keys_are_distinct (p : GroundGrid.Props) :
  List.NoDup (map GroundGrid.key (GroundGrid.squares p)) /\
  (forall r c r' c',
     GroundGrid.key (GroundGrid.squareAt p r c)
     = GroundGrid.key (GroundGrid.squareAt p r' c') -> r = r' /\ c = c').
Proof.
  split; [| intros r c r' c'; apply square_key_inj].
  apply keys_of_rows_NoDup; apply seq_NoDup.
Qed.

(** X25. With alternating colours the grid is a checkerboard: a square has
    the first colour when its row and column numbers add up to an even
    number and the second colour otherwise, so its right and lower
    neighbours have the other colour; without alternation all squares have
    the first colour. *)
Theorem X25_squares_form_a_checkerboard (p : GroundGrid.Props) (r c : nat) :
  GroundGrid.square_color (GroundGrid.squareAt p r c)
    = (if GroundGrid.alternateColors p && Nat.odd (r + c)
       then GroundGrid.secondColor p else GroundGrid.color p) /\
  (GroundGrid.alternateColors p = true ->
   GroundGrid.color p <> GroundGrid.secondColor p ->
   GroundGrid.square_color (GroundGrid.squareAt p r (S c))
     <> GroundGrid.square_color (GroundGrid.squareAt p r c) /\
   GroundGrid.square_color (GroundGrid.squareAt p (S r) c)
     <> GroundGrid.square_color (GroundGrid.squareAt p r c)).
Proof.
  assert (Hparity : forall n, Nat.eqb (n mod 2) 1 = Nat.odd n).
  { intros n. rewrite <- Nat.bit0_mod, Nat.bit0_odd.
    now destruct (Nat.odd n). }
  assert (Hcol : forall r' c',
            GroundGrid.square_color (GroundGrid.squareAt p r' c')
            = (if GroundGrid.alternateColors p && Nat.odd (r' + c')
               then GroundGrid.secondColor p else GroundGrid.color p)).
  { intros r' c'. unfold GroundGrid.squareAt. cbn [GroundGrid.square_color].
    now rewrite Hparity. }
  split; [apply Hcol |].
  intros Halt Hne. rewrite !Hcol, Halt. cbn [andb].
  replace (r + S c)%nat with (S (r + c)) by lia.
  replace (S r + c)%nat with (S (r + c)) by lia.
  rewrite Nat.odd_succ, <- Nat.negb_odd.
  destruct (Nat.odd (r + c)); cbn; split; congruence.
Qed.

End GridGeometry.

(** ** More on the rotation accumulator *)

Section RotationSequences.
Context {PlayerData : Type} `{!Player.Row PlayerData}.
Implicit Types (w : World PlayerData).

Lemma handleMouseMove_rotation (event : MouseEvent) w :
  is_nan (movementY event) = false ->
  pitch_in_range (THREE.x (playerRotationRef (refs w))) ->
  pitch_in_range (THREE.x (playerRotationRef (refs (handleMouseMove event w)))) /\
  THREE.z (playerRotationRef (refs (handleMouseMove event w)))
    = THREE.z (playerRotationRef (refs w)) /\
  THREE.order (playerRotationRef (refs (handleMouseMove event w)))
    = THREE.order (playerRotationRef (refs w)).
Proof.
  intros Hd Hx. unfold handleMouseMove.
  destruct (isDocumentBody (pointerLockElement (browser w))); cbn.
  - split; [| split; reflexivity].
    apply clamp_between; [exact pitch_bounds_ordered | now apply pitch_step_not_nan].
  - split; [exact Hx | split; reflexivity].
Qed.

(** X26. Over any sequence of device events (no mouse movement with a [NaN]
    vertical component), whether the pointer is locked or not, a vertical
    angle that starts within the bounds ends within them, and the roll
    angle and the rotation order keep their values. *)
Theorem X26_pitch_stays_clamped_over_any_mouse_path (evs : list InputEvent) w :
  Forall (fun ev => match ev with
                    | mousemove e => is_nan (movementY e) = false
                    | _ => True
                    end) evs ->
  pitch_in_range (THREE.x (playerRotationRef (refs w))) ->
  pitch_in_range (THREE.x (playerRotationRef (refs (fold_left handleInput evs w)))) /\
  THREE.z (playerRotationRef (refs (fold_left handleInput evs w)))
    = THREE.z (playerRotationRef (refs w)) /\
  THREE.order (playerRotationRef (refs (fold_left handleInput evs w)))
    = THREE.order (playerRotationRef (refs w)).
Proof.
  intros Hall. revert w.
  induction Hall as [| ev evs Hev Hall IH]; intros w Hx; cbn [fold_left].
  - split; [exact Hx | split; reflexivity].
  - assert (Hstep :
      pitch_in_range (THREE.x (playerRotationRef (refs (handleInput w ev)))) /\
      THREE.z (playerRotationRef (refs (handleInput w ev)))
        = THREE.z (playerRotationRef (refs w)) /\
      THREE.order (playerRotationRef (refs (handleInput w ev)))
        = THREE.order (playerRotationRef (refs w))).
    { destruct ev as [e | e | e | e | e |]; cbn [handleInput].
      - destruct (handleKeyDown_writes_input e w) as (i & -> & _). now split.
      - destruct (handleKeyUp_writes_input e w) as (i & -> & _). now split.
      - destruct (handleMouseDown_writes_input e w) as (i & -> & _). now split.
      - destruct (handleMouseUp_writes_input e w) as (i & -> & _). now split.
      - now apply handleMouseMove_rotation.
      - now split. }
    destruct Hstep as (Hx' & Hz & Ho).
    destruct (IH _ Hx') as (H1 & H2 & H3).
    split; [exact H1 | split; congruence].
Qed.

Lemma leb_not_gt (a b : float) : (a <=? b)%float = true -> (b <? a)%float = false.
Proof.
  rewrite FloatAxioms.leb_spec, FloatAxioms.ltb_spec. unfold SFleb, SFltb.
  rewrite (SFcompare_antisym (Prim2SF a) (Prim2SF b)).
  destruct (SFcompare (Prim2SF a) (Prim2SF b)) as [[] |]; cbn; congruence.
Qed.

(** Clamping an angle that is within the bounds gives the angle itself. *)
Lemma clamp_in_range_id (x : float) :
  pitch_in_range x -> Math.max pitch_min (Math.min pitch_max x) = x.
Proof.
  intros [Hlo Hhi].
  destruct (leb_not_nan _ _ Hlo) as [_ Hx].
  assert (Hmin : Math.min pitch_max x = x).
  { unfold Math.min. rewrite Hx. change (is_nan pitch_max) with false. cbn [orb].
    rewrite (leb_not_gt _ _ Hhi).
    destruct (x <? pitch_max)%float; [reflexivity |].
    change (get_sign pitch_max) with false. reflexivity. }
  rewrite Hmin. unfold Math.max. rewrite Hx.
  change (is_nan pitch_min) with false. cbn [orb].
  destruct (pitch_min <? x)%float; [reflexivity |].
  rewrite (leb_not_gt _ _ Hlo). change (get_sign pitch_min) with true. reflexivity.
Qed.

Lemma sub_zero (x : float) : (x - 0)%float = x.
Proof.
  apply Prim2SF_inj. rewrite FloatAxioms.sub_spec.
  change (Prim2SF 0) with (S754_zero false).
  destruct (Prim2SF x) as [[] | [] | | s m e]; reflexivity.
Qed.

(** X27. A mouse movement with no vertical component leaves a vertical
    angle that is within the bounds exactly as it is, bit for bit, pointer
    lock or not. *)
Theorem X27_horizontal_movement_keeps_pitch (event : MouseEvent) w :
  movementY event = 0%float ->
  pitch_in_range (THREE.x (playerRotationRef (refs w))) ->
  THREE.x (playerRotationRef (refs (handleMouseMove event w)))
    = THREE.x (playerRotationRef (refs w)).
Proof.
  intros Hy Hx. unfold handleMouseMove.
  destruct (isDocumentBody (pointerLockElement (browser w))); cbn; [| reflexivity].
  rewrite Hy. change (0 * sensitivity)%float with 0%float.
  rewrite sub_zero. now apply clamp_in_range_id.
Qed.

End RotationSequences.

Lemma X19_selection_tracks_the_table_witness :
  selectionTracks (selectedSquares Sample.online) Sample.grid_table /\
  insertsAreFresh Sample.grid_table Sample.grid_events /\
  selectionTracks
    (selectedSquares (fold_left gridDeliver Sample.grid_events Sample.online))
    (fold_left gridTableStep Sample.grid_events Sample.grid_table).
Proof.
  assert (Htr : selectionTracks (selectedSquares Sample.online) Sample.grid_table).
  { intros k. unfold Sample.grid_table. cbn. rewrite elem_of_singleton. split.
    - intros ->. eexists. split; [apply lookup_singleton_eq | reflexivity].
    - intros (row & Hrow & _). apply lookup_singleton_Some in Hrow as [<- _].
      reflexivity. }
  assert (Hfresh : insertsAreFresh Sample.grid_table Sample.grid_events).
  { cbn. repeat split. }
  split; [exact Htr | split; [exact Hfresh |]].
  exact (X19_selection_tracks_the_table
           Sample.grid_events Sample.grid_table Sample.online Htr Hfresh).
Defined.

Lemma online_pitch_in_range :
  pitch_in_range (THREE.x (playerRotationRef (refs Sample.online))).
Proof. split; reflexivity. Qed.

Lemma X26_pitch_stays_clamped_over_any_mouse_path_witness :
  pitch_in_range (THREE.x (playerRotationRef (refs Sample.online))) /\
  pitch_in_range
    (THREE.x (playerRotationRef
                (refs (fold_left handleInput
                         [mousemove Sample.sweep; keydown Sample.press_w;
                          mousemove Sample.pan]
                         Sample.online)))).
Proof.
  split; [exact online_pitch_in_range |].
  apply (X26_pitch_stays_clamped_over_any_mouse_path
           [mousemove Sample.sweep; keydown Sample.press_w; mousemove Sample.pan]
           Sample.online).
  - repeat constructor.
  - exact online_pitch_in_range.
Defined.

Lemma X27_horizontal_movement_keeps_pitch_witness :
  movementY Sample.pan = 0%float /\
  THREE.x (playerRotationRef (refs (handleMouseMove Sample.pan Sample.online)))
  = THREE.x (playerRotationRef (refs Sample.online)).
Proof.
  split; [reflexivity |].
  exact (X27_horizontal_movement_keeps_pitch
           Sample.pan Sample.online eq_refl online_pitch_in_range).
Defined.

Section RenderingFacts.

(** X28. In the locally selecting grid a click on a cell swaps the colour
    that cell is rendered with between the selected colour and its own
    checkerboard colour, and the colour of every other cell of the grid is
    rendered as before. *)
Theorem X28_click_recolours_only_the_clicked_cell
  (p : GroundGrid.Props) (s : gset string) (r c r' c' : nat) :
  GroundGrid.materialColor p
    (GroundGrid.handleClickLocal (GroundGrid.key (GroundGrid.squareAt p r c)) s)
    (GroundGrid.squareAt p r c)
  = (if bool_decide (GroundGrid.key (GroundGrid.squareAt p r c) ∈ s)
     then GroundGrid.square_color (GroundGrid.squareAt p r c)
     else GroundGrid.selectedColor p) /\
  ((r', c') <> (r, c) ->
   GroundGrid.materialColor p
     (GroundGrid.handleClickLocal (GroundGrid.key (GroundGrid.squareAt p r c)) s)
     (GroundGrid.squareAt p r' c')
   = GroundGrid.materialColor p s (GroundGrid.squareAt p r' c')).
Proof.
  unfold GroundGrid.materialColor.
  set (K := GroundGrid.key (GroundGrid.squareAt p r c)).
  destruct (local_click_membership K s) as [Hflip Hsame]. split.
  - destruct (decide (K ∈ s)) as [Hin | Hout].
    + rewrite (bool_decide_eq_true_2 (K ∈ s) Hin).
      rewrite (bool_decide_eq_false_2 (K ∈ GroundGrid.handleClickLocal K s));
        [reflexivity | tauto].
    + rewrite (bool_decide_eq_false_2 (K ∈ s) Hout).
      rewrite (bool_decide_eq_true_2 (K ∈ GroundGrid.handleClickLocal K s));
        [reflexivity | tauto].
  - intros Hne.
    set (K' := GroundGrid.key (GroundGrid.squareAt p r' c')).
    assert (Hk : K' <> K).
    { intros Heq. apply square_key_inj in Heq as [-> ->]. now apply Hne. }
    specialize (Hsame _ Hk).
    destruct (decide (K' ∈ s)) as [Hin | Hout].
    + rewrite (bool_decide_eq_true_2 (K' ∈ s) Hin).
      rewrite (bool_decide_eq_true_2 (K' ∈ GroundGrid.handleClickLocal K s));
        [reflexivity | tauto].
    + rewrite (bool_decide_eq_false_2 (K' ∈ s) Hout).
      rewrite (bool_decide_eq_false_2 (K' ∈ GroundGrid.handleClickLocal K s));
        [reflexivity | tauto].
Qed.

End RenderingFacts.
